(** * qkd-strap: Alice's side of the BB92-style key distribution

    A shallow embedding of [src/app_alice.py] and the properties of its
    classical post-processing: message framing, basis reconciliation,
    error estimation, raw-key extraction and the reported statistics.

    Conventions of the embedding.
    - Python [int] is [Z]; list positions coming from [enumerate] are
      kept as [Z] as well, so that [pairs_info[i]] is one operation
      (with Python's negative-index wrap and [IndexError]).
    - Python [str] is [string].
    - A call that can raise returns a [result]; code that talks to the
      peer threads the socket through a small state-and-error monad, the
      socket surviving a raised exception the way the real one does.
    - [int / int] is Python's true division.  Its float result is the
      correctly rounded image of the exact quotient, which is what the
      model keeps (a [Q]); [math.log2] is the real logarithm in base 2. *)

From Stdlib Require Import ZArith QArith Qreals Reals Lra Lia String Ascii Sorted.
From stdpp Require Import base option list.

Local Open Scope Z_scope.

(** ** Exceptions and results *)

Inductive PyErr : Type :=
  | ZeroDivisionError
  | ValueError
  | AssertionError
  | IndexError
  | TypeError
  | RuntimeError.

(** [Blocked] is a receive on a socket whose peer sends nothing more:
    the call never returns. *)
Inductive result (A : Type) : Type :=
  | Ok (a : A)
  | Raise (e : PyErr)
  | Blocked.
Arguments Ok {A} a.
Arguments Raise {A} e.
Arguments Blocked {A}.

Definition obind {A B} (o : result A) (k : A -> result B) : result B :=
  match o with
  | Ok a => k a
  | Raise e => Raise e
  | Blocked => Blocked
  end.

(** ** Python list primitives *)

(** [l[i]] for a Python int [i]: negative positions count from the end. *)
Definition py_norm_index (n : nat) (i : Z) : option nat :=
  if (0 <=? i) && (i <? Z.of_nat n) then Some (Z.to_nat i)
  else if (i <? 0) && (- Z.of_nat n <=? i) then Some (Z.to_nat (Z.of_nat n + i))
  else None.

Definition py_getitem {A} (l : list A) (i : Z) : result A :=
  match py_norm_index (length l) i with
  | Some k => match l !! k with Some x => Ok x | None => Raise IndexError end
  | None => Raise IndexError
  end.

(** [l[i].field = v]: the object at position [i] is changed in place. *)
Definition py_setattr_at {A} (l : list A) (i : Z) (f : A -> A) : result (list A) :=
  match py_norm_index (length l) i with
  | Some k => Ok (alter f k l)
  | None => Raise IndexError
  end.

(** [l[0:stop]]: a negative [stop] counts from the end. *)
Definition py_slice_to {A} (l : list A) (stop : Z) : list A :=
  if 0 <=? stop then take (Z.to_nat stop) l
  else take (Z.to_nat (Z.of_nat (length l) + stop)) l.

Fixpoint enumerate_from {A} (k : Z) (l : list A) : list (Z * A) :=
  match l with
  | [] => []
  | x :: l' => (k, x) :: enumerate_from (k + 1) l'
  end.

Definition enumerate {A} (l : list A) : list (Z * A) := enumerate_from 0 l.

Fixpoint py_zip {A B} (l : list A) (r : list B) : list (A * B) :=
  match l, r with
  | a :: l', b :: r' => (a, b) :: py_zip l' r'
  | _, _ => []
  end.

(** ** The framed channel: [recv_single_msg], [send_single_msg] *)

Module Framing.

Local Open Scope string_scope.

Definition EOF : string := "EOF".

(** [s.split(sep)] for a non-empty [sep]: the occurrences of [sep] are
    found left to right and do not overlap; [skip] counts the characters
    of an occurrence still to be stepped over, [cur] is the piece being
    collected. *)
Fixpoint split_from (sep : string) (skip : nat) (cur s : string) : list string :=
  match s with
  | EmptyString => [cur]
  | String c s' =>
      match skip with
      | S k => split_from sep k cur s'
      | O =>
          if String.prefix sep s
          then cur :: split_from sep (String.length sep - 1) "" s'
          else split_from sep 0 (cur ++ String c "") s'
      end
  end.

Definition py_split (sep s : string) : list string := split_from sep 0 "" s.

(** The module-level [buf_msgs], the reads the transport will deliver to
    [socket.recv()], and what [socket.send] was given. *)
Record Channel : Type := mkChannel {
  buf_msgs : list string;
  pending : list string;
  wire : list string
}.

Definition recv_single_msg (c : Channel) : result string * Channel :=
  match buf_msgs c with
  | msg :: rest => (Ok msg, mkChannel rest (pending c) (wire c))
  | [] =>
      match pending c with
      | [] => (Blocked, c)
      | data :: later =>
          let msgs := removelast (py_split EOF data) in
          let c' := mkChannel (buf_msgs c ++ tail msgs) later (wire c) in
          match msgs with
          | [] => (Raise IndexError, c')
          | msg :: _ => (Ok msg, c')
          end
      end
  end.

Definition send_single_msg (c : Channel) (msg : string) : Channel :=
  mkChannel (buf_msgs c) (pending c) (wire c ++ [msg ++ EOF]).

(** [n] receives in a row, stopping at the first that does not return. *)
Fixpoint recv_many (n : nat) (c : Channel) : list string * result unit * Channel :=
  match n with
  | O => ([], Ok tt, c)
  | S n' =>
      match recv_single_msg c with
      | (Ok m, c') =>
          let '(ms, o, c'') := recv_many n' c' in (m :: ms, o, c'')
      | (Raise e, c') => ([], Raise e, c')
      | (Blocked, c') => ([], Blocked, c')
      end
  end.

(** The bytes of a batch of logical messages, each followed by [EOF]. *)
Fixpoint frame (msgs : list string) : string :=
  match msgs with
  | [] => ""
  | m :: msgs' => m ++ EOF ++ frame msgs'
  end.

Fixpoint has_EOF (s : string) : bool :=
  match s with
  | EmptyString => false
  | String _ s' => String.prefix EOF s || has_EOF s'
  end.

Definition EOF_free (m : string) : Prop := has_EOF m = false.

(** The byte stream made of a list of strings, and the channel after a
    sequence of sends on a fresh one. *)
Definition bytes_of (l : list string) : string := foldr append "" l.

Definition fresh : Channel := mkChannel [] [] [].

Definition send_all (msgs : list string) : Channel := fold_left send_single_msg msgs fresh.

End Framing.

(** ** Pairs *)

(** [PairInfo]: what Alice knows about one generated pair.  The three
    optional fields start as [None] and are filled during the run. *)
Record PairInfo : Type := mkPair {
  index : Z;
  basis : Z;
  outcome : Z;
  same_basis : option bool;
  test_outcome : option bool;
  same_outcome : option bool
}.

Definition set_same_basis (v : bool) (p : PairInfo) : PairInfo :=
  mkPair (index p) (basis p) (outcome p) (Some v) (test_outcome p) (same_outcome p).

Definition set_test_outcome (v : bool) (p : PairInfo) : PairInfo :=
  mkPair (index p) (basis p) (outcome p) (same_basis p) (Some v) (same_outcome p).

Definition set_same_outcome (v : bool) (p : PairInfo) : PairInfo :=
  mkPair (index p) (basis p) (outcome p) (same_basis p) (test_outcome p) (Some v).

(** Truth value of an [Optional[bool]] in a condition: [None] is false. *)
Definition truthy (o : option bool) : bool :=
  match o with
  | Some true => true
  | _ => false
  end.

(** Basis encoding of the source: 0 = Z, 1 = X. *)
Definition basis_Z : Z := 0.
Definition basis_X : Z := 1.

(** ** The classical socket *)

(** The elements of a structured payload: the code sends lists of ints
    and lists of 2-tuples of ints. *)
Inductive item : Type :=
  | IInt (z : Z)
  | IPair (a b : Z).

Inductive message : Type :=
  | Text (s : string)
  | Structured (header : string) (payload : list item).

(** [inbox]: what the peer sends, in order; [outbox]: what Alice sent. *)
Record Socket : Type := mkSocket {
  inbox : list message;
  outbox : list message
}.

Definition M (A : Type) : Type := Socket -> result A * Socket.

Definition ret {A} (a : A) : M A := fun s => (Ok a, s).

Definition lift {A} (o : result A) : M A := fun s => (o, s).

Definition bind {A B} (m : M A) (k : A -> M B) : M B :=
  fun s =>
    match m s with
    | (Ok a, s') => k a s'
    | (Raise e, s') => (Raise e, s')
    | (Blocked, s') => (Blocked, s')
    end.

Notation "x <~ m ;; k" := (bind m (fun x => k))
  (at level 100, m at next level, right associativity).
Notation "x <- m ;; k" := (obind m (fun x => k))
  (at level 100, m at next level, right associativity).

Definition send (m : message) : M unit :=
  fun s => (Ok tt, mkSocket (inbox s) (outbox s ++ [m])).

Definition recv : M message :=
  fun s =>
    match inbox s with
    | [] => (Blocked, s)
    | m :: rest => (Ok m, mkSocket rest (outbox s))
    end.

Definition send_structured (header : string) (payload : list item) : M unit :=
  send (Structured header payload).

(** [socket.recv_structured().payload]; a message that is not a
    structured one has no payload to hand over. *)
Definition recv_structured_payload : M (list item) :=
  m <~ recv ;;
  match m with
  | Structured _ payload => ret payload
  | Text _ => lift (Raise TypeError)
  end.

(** Unpacking [(a, b)] from a received element. *)
Definition unpack_pair (it : item) : result (Z * Z) :=
  match it with
  | IPair a b => Ok (a, b)
  | IInt _ => Raise TypeError
  end.

Definition pack_pair (ab : Z * Z) : item := IPair (fst ab) (snd ab).

(** ** Basis reconciliation: [filter_bases] *)

(** The loop over [zip(bases, remote_bases)]. *)
Fixpoint filter_bases_loop (zs : list ((Z * Z) * item)) (pairs_info : list PairInfo)
  : result (list PairInfo) :=
  match zs with
  | [] => Ok pairs_info
  | ((i, b), it) :: zs' =>
      r <- unpack_pair it ;;
      let '(remote_i, remote_basis) := r in
      if i =? remote_i then
        pairs' <- py_setattr_at pairs_info i (set_same_basis (b =? remote_basis)) ;;
        filter_bases_loop zs' pairs'
      else Raise AssertionError
  end.

(** [bases]: position and basis of every pair ([pairs_info[i]] is the
    pair that [enumerate] yields at [i]). *)
Definition local_bases (pairs_info : list PairInfo) : list (Z * Z) :=
  map (fun ip => (fst ip, basis (snd ip))) (enumerate pairs_info).

Definition filter_bases (pairs_info : list PairInfo) : M (list PairInfo) :=
  let bases := local_bases pairs_info in
  _ <~ send_structured "Bases" (map pack_pair bases) ;;
  remote_bases <~ recv_structured_payload ;;
  lift (filter_bases_loop (py_zip bases remote_bases) pairs_info).

(** ** Error estimation: [estimate_error_rate] *)

(** [random.sample] draws [k] elements at distinct positions of the
    population.  The generator is the list [rs] of naturals it yields:
    each draw takes the element at position [r mod (remaining size)] out
    of the remaining pool, so every list [rs] gives a sample without
    replacement and every such sample comes from some [rs]. *)
Fixpoint sample_draw (rs : list nat) (pool : list Z) (k : nat) : list Z :=
  match k with
  | O => []
  | S k' =>
      match pool with
      | [] => []
      | x0 :: _ =>
          let j := (hd O rs mod length pool)%nat in
          nth j pool x0 :: sample_draw (tl rs) (delete j pool) k'
      end
  end.

Definition random_sample (rs : list nat) (population : list Z) (k : Z) : result (list Z) :=
  if (0 <=? k) && (k <=? Z.of_nat (length population))
  then Ok (sample_draw rs population (Z.to_nat k))
  else Raise ValueError.

(** [a / b] on ints: the exact quotient, [ZeroDivisionError] at [b = 0]. *)
Definition py_truediv (a b : Z) : result Q :=
  if b =? 0 then Raise ZeroDivisionError
  else Ok (Qmake (a * Z.sgn b) (Z.to_pos (Z.abs b))).

Definition same_basis_indices (pairs_info : list PairInfo) : list Z :=
  map index (List.filter (fun pair => truthy (same_basis pair)) pairs_info).

(** The sample size handed to [random.sample]. *)
Definition sample_size (pairs_info : list PairInfo) (num_test_bits : Z) : Z :=
  Z.min num_test_bits (Z.of_nat (length (same_basis_indices pairs_info))).

Definition mark_tests (test_indices : list Z) (pairs_info : list PairInfo) : list PairInfo :=
  map (fun pair => set_test_outcome (bool_decide (index pair ∈ test_indices)) pair)
      pairs_info.

(** [[(i, pairs_info[i].outcome) for i in test_indices]] *)
Fixpoint collect_outcomes (pairs_info : list PairInfo) (test_indices : list Z)
  : result (list (Z * Z)) :=
  match test_indices with
  | [] => Ok []
  | i :: rest =>
      pair <- py_getitem pairs_info i ;;
      tl <- collect_outcomes pairs_info rest ;;
      Ok ((i, outcome pair) :: tl)
  end.

(** The loop over [zip(test_outcomes, target_test_outcomes)]. *)
Fixpoint compare_loop (zs : list ((Z * Z) * item)) (pairs_info : list PairInfo)
    (num_error : Z) : result (list PairInfo * Z) :=
  match zs with
  | [] => Ok (pairs_info, num_error)
  | ((i1, t1), it) :: zs' =>
      r <- unpack_pair it ;;
      let '(i2, t2) := r in
      if i1 =? i2 then
        if negb (t1 =? t2) then
          pairs' <- py_setattr_at pairs_info i1 (set_same_outcome false) ;;
          compare_loop zs' pairs' (num_error + 1)
        else
          pairs' <- py_setattr_at pairs_info i1 (set_same_outcome true) ;;
          compare_loop zs' pairs' num_error
      else Raise AssertionError
  end.

Definition estimate_error_rate (rs : list nat) (pairs_info : list PairInfo)
    (num_test_bits : Z) : M (list PairInfo * Q) :=
  test_indices <~ lift (random_sample rs (same_basis_indices pairs_info)
                          (sample_size pairs_info num_test_bits)) ;;
  let pairs_info := mark_tests test_indices pairs_info in
  test_outcomes <~ lift (collect_outcomes pairs_info test_indices) ;;
  _ <~ send_structured "Test indices" (map IInt test_indices) ;;
  target_test_outcomes <~ recv_structured_payload ;;
  _ <~ send_structured "Test outcomes" (map pack_pair test_outcomes) ;;
  r <~ lift (compare_loop (py_zip test_outcomes target_test_outcomes) pairs_info 0) ;;
  let '(pairs_info, num_error) := r in
  rate <~ lift (py_truediv num_error num_test_bits) ;;
  ret (pairs_info, rate).

(** ** Binary entropy: [h] *)

Definition log2 (x : R) : R := (ln x / ln 2)%R.

Definition h (p : R) : R :=
  if Req_dec_T p 0 then 0%R
  else if Req_dec_T p 1 then 0%R
  else (- p * log2 p - (1 - p) * log2 (1 - p))%R.

(** ** [main] *)

Definition ALL_MEASURED : string := "All qubits measured".

(** The last column of the table: [pair.same_outcome] or ["-"]. *)
Inductive check : Type :=
  | Dash
  | Checked (same : option bool).

Record Row : Type := mkRow {
  row_index : Z;
  row_basis : string;
  row_same_basis : option bool;
  row_outcome : Z;
  row_check : check
}.

Record Report : Type := mkReport {
  secret_key : list Z;
  table : list Row;
  x_basis_count : Z;
  z_basis_count : Z;
  same_basis_count : Z;
  outcome_comparison_count : Z;
  diff_outcome_count : Z;
  qber : Q;
  key_rate_potential : R;
  raw_key : list Z
}.

(** [sum] over [Optional[bool]] values: adding [None] is a [TypeError]. *)
Fixpoint sum_flags (l : list (option bool)) : result Z :=
  match l with
  | [] => Ok 0
  | Some b :: l' => s <- sum_flags l' ;; Ok (Z.b2z b + s)
  | None :: _ => Raise TypeError
  end.

Definition sum_ints (l : list Z) : Z := foldr Z.add 0 l.

Definition py_range (n : Z) : list Z := map Z.of_nat (seq 0 (Z.to_nat n)).

(** The loop that boils the two lists down to [pairs_info]. *)
Fixpoint make_pairs (bit_flips basis_flips : list Z) (range : list Z)
  : result (list PairInfo) :=
  match range with
  | [] => Ok []
  | i :: range' =>
      b <- py_getitem basis_flips i ;;
      o <- py_getitem bit_flips i ;;
      rest <- make_pairs bit_flips basis_flips range' ;;
      Ok (mkPair i b o None None None :: rest)
  end.

Definition raw_key_of (pairs_info : list PairInfo) : list Z :=
  map outcome
    (List.filter (fun pair => negb (truthy (test_outcome pair)) && truthy (same_basis pair))
       pairs_info).

Definition table_of (pairs_info : list PairInfo) : list Row :=
  map (fun pair =>
         mkRow (index pair)
               (if basis pair =? 1 then "X" else "Z")
               (same_basis pair)
               (outcome pair)
               (if truthy (test_outcome pair) then Checked (same_outcome pair) else Dash))
      pairs_info.

Definition count_same_basis (pairs_info : list PairInfo) : result Z :=
  sum_flags (map same_basis pairs_info).

Definition count_compared (pairs_info : list PairInfo) : result Z :=
  sum_flags (map test_outcome
               (List.filter (fun pair => truthy (same_basis pair)) pairs_info)).

Definition count_same_outcome (pairs_info : list PairInfo) : result Z :=
  sum_flags (map same_outcome
               (List.filter (fun pair => truthy (test_outcome pair)) pairs_info)).

Definition qber_of (diff_outcome_count outcome_comparison_count : Z) : result Q :=
  if outcome_comparison_count =? 0 then Ok 1%Q
  else py_truediv diff_outcome_count outcome_comparison_count.

Definition key_rate_of (qber : Q) : R := (1 - 2 * h (Q2R qber))%R.

(** Everything of [main] after error estimation. *)
Definition report_of (pairs_info : list PairInfo) (num_bits key_length : Z) : result Report :=
  let raw_key := raw_key_of pairs_info in
  let table := table_of pairs_info in
  let x_basis_count := sum_ints (map basis pairs_info) in
  let z_basis_count := num_bits - x_basis_count in
  same_basis_count <- count_same_basis pairs_info ;;
  outcome_comparison_count <- count_compared pairs_info ;;
  same <- count_same_outcome pairs_info ;;
  let diff_outcome_count := outcome_comparison_count - same in
  qber <- qber_of diff_outcome_count outcome_comparison_count ;;
  Ok (mkReport (py_slice_to raw_key key_length) table x_basis_count z_basis_count
        same_basis_count outcome_comparison_count diff_outcome_count qber
        (key_rate_of qber) raw_key).

(** [max(int(num_bits / 4), 1)]: [int] truncates towards zero. *)
Definition num_test_bits_of (num_bits : Z) : Z := Z.max (Z.quot num_bits 4) 1.

(** [main].  The quantum part ([distribute_bb92_states]) belongs to the
    simulator: [bit_flips] and [basis_flips] are the two lists it
    returned, [rs] is what the random generator yields to [random.sample]. *)
Definition main (bit_flips basis_flips : list Z) (rs : list nat)
    (num_bits key_length : Z) : M Report :=
  let num_test_bits := num_test_bits_of num_bits in
  pairs_info <~ lift (make_pairs bit_flips basis_flips (py_range num_bits)) ;;
  m <~ recv ;;
  match m with
  | Text s =>
      if String.eqb s ALL_MEASURED then
        pairs_info <~ filter_bases pairs_info ;;
        r <~ estimate_error_rate rs pairs_info num_test_bits ;;
        let '(pairs_info, error_rate) := r in
        lift (report_of pairs_info num_bits key_length)
      else lift (Raise RuntimeError)
  | Structured _ _ => lift (Raise RuntimeError)
  end.

(** *** The end-to-end scenario of the specification *)

Definition demo_basis : list Z := [0; 0; 1; 1; 0; 1; 0; 1].
Definition demo_peer_basis : list Z := [0; 1; 1; 0; 0; 1; 0; 1].
Definition demo_outcomes : list Z := [0; 1; 1; 0; 1; 0; 1; 1].

Definition demo_socket : Socket :=
  mkSocket
    [ Text ALL_MEASURED;
      Structured "Bases" (map pack_pair (enumerate demo_peer_basis));
      Structured "Test outcomes" [IPair 4 1; IPair 0 0] ]
    [].

(** ** The assured mode: [sendClassicalAssured], [recvClassicalAssured] *)

Module Assured.

Import Framing.
Local Open Scope string_scope.

Section Json.

(** [json.dumps] and [json.loads] belong to the standard library: they
    are taken as given, for whatever type of data the caller sends. *)
Context {data : Type}.
Variable dumps : data -> string.
Variable loads : string -> result data.

(** [while recv_single_msg(socket) != "ACK": pass].  The loop has no
    bound of its own; [fuel] counts the receives, [None] is a run cut
    short by the fuel. *)
Fixpoint await_ack (fuel : nat) (c : Channel) : option (result unit * Channel) :=
  match fuel with
  | O => None
  | S fuel' =>
      match recv_single_msg c with
      | (Ok msg, c') =>
          if String.eqb msg "ACK" then Some (Ok tt, c') else await_ack fuel' c'
      | (Raise e, c') => Some (Raise e, c')
      | (Blocked, c') => Some (Blocked, c')
      end
  end.

Definition sendClassicalAssured (fuel : nat) (c : Channel) (d : data)
  : option (result unit * Channel) :=
  await_ack fuel (send_single_msg c (dumps d)).

Definition recvClassicalAssured (c : Channel) : result data * Channel :=
  match recv_single_msg c with
  | (Ok msg, c') =>
      match loads msg with
      | Ok d => (Ok d, send_single_msg c' "ACK")
      | Raise e => (Raise e, c')
      | Blocked => (Blocked, c')
      end
  | (Raise e, c') => (Raise e, c')
  | (Blocked, c') => (Blocked, c')
  end.

End Json.

(** A number of receives no run of the loop can exceed: every receive
    uses up a buffered message or a pending read. *)
Definition ack_budget (c : Channel) : nat :=
  S (length (buf_msgs c)
     + foldr (fun d acc => S (String.length d) + acc)%nat O (pending c)).

End Assured.

(** ** [extract_key] *)

Definition extract_key (x r : list Z) : Z :=
  sum_ints (map (fun xr => fst xr * snd xr) (py_zip x r)) mod 2.

(** ** Pair distribution: [distribute_bb92_states] *)

(** The operations handed to the quantum processor, in program order:
    [epr_socket.create_keep], [q.H], [conn.flush], [q.measure]. *)
Inductive qop : Type :=
  | QCreateKeep
  | QH
  | QFlush
  | QMeasure.

(** [l[i] = v] *)
Definition py_setitem {A} (l : list A) (i : Z) (v : A) : result (list A) :=
  py_setattr_at l i (fun _ => v).

(** The loop over [range(n)].  [meas i] is the bit the processor returns
    for the measurement of pair [i]. *)
Fixpoint share_loop (meas : nat -> bool) (basis_flips : list Z) (range : list nat)
    (bit_flips : list (option Z)) (trace : list qop)
  : result (list (option Z) * list qop) :=
  match range with
  | [] => Ok (bit_flips, trace)
  | i :: range' =>
      b <- py_getitem basis_flips (Z.of_nat i) ;;
      let trace := trace ++ [QCreateKeep] ++ (if b =? 0 then [] else [QH])
                         ++ [QFlush; QMeasure; QFlush] in
      bit_flips <- py_setitem bit_flips (Z.of_nat i) (Some (Z.b2z (meas i))) ;;
      share_loop meas basis_flips range' bit_flips trace
  end.

(** [coin i] is the [i]-th draw of [random.randint(0, 1)].  The result is
    the two lists and the operations issued. *)
Definition distribute_bb92_states (coin meas : nat -> bool) (n : Z)
  : result (list (option Z) * list Z * list qop) :=
  let bit_flips := replicate (Z.to_nat n) None in
  let basis_flips := map (fun i => Z.b2z (coin i)) (seq 0 (Z.to_nat n)) in
  r <- share_loop meas basis_flips (seq 0 (Z.to_nat n)) bit_flips [] ;;
  Ok (fst r, basis_flips, snd r).

(** The operations issued for one pair measured in basis [b]. *)
Definition pair_ops (b : Z) : list qop :=
  [QCreateKeep] ++ (if b =? 0 then [] else [QH]) ++ [QFlush; QMeasure; QFlush].

Definition qop_eqb (a b : qop) : bool :=
  match a, b with
  | QCreateKeep, QCreateKeep | QH, QH | QFlush, QFlush | QMeasure, QMeasure => true
  | _, _ => false
  end.

Definition count_op (o : qop) (trace : list qop) : nat :=
  length (List.filter (qop_eqb o) trace).

Definition is_bit (z : Z) : Prop := z = 0 \/ z = 1.

(** ** Closed forms used in the statements *)

(** What reconciliation against the peer's bases leaves in the list. *)
Fixpoint reconcile (pairs_info : list PairInfo) (peer_basis : list Z) : list PairInfo :=
  match pairs_info, peer_basis with
  | p :: ps, b :: bs => set_same_basis (basis p =? b) p :: reconcile ps bs
  | _, _ => pairs_info
  end.

(** The peer's ["Bases"] payload for the basis list [peer_basis]. *)
Definition bases_payload (peer_basis : list Z) : list item :=
  map pack_pair (enumerate peer_basis).

(** [same_basis == true] and [is_test == false], on set fields. *)
Definition qualifies (p : PairInfo) : bool :=
  match same_basis p, test_outcome p with
  | Some true, Some false => true
  | _, _ => false
  end.

(** A pair sequence after the three stages: [same_basis] and
    [test_outcome] are set everywhere, [same_outcome] on the tested pairs. *)
Definition annotated (p : PairInfo) : Prop :=
  is_Some (same_basis p) /\ is_Some (test_outcome p)
  /\ (test_outcome p = Some true -> is_Some (same_outcome p)).

Definition fully_annotated (pairs_info : list PairInfo) : Prop :=
  Forall annotated pairs_info.

Definition count_true (l : list (option bool)) : Z :=
  Z.of_nat (length (List.filter truthy l)).

(** The indices [estimate_error_rate] samples, given the generator. *)
Definition test_indices_of (rs : list nat) (pairs_info : list PairInfo)
    (num_test_bits : Z) : list Z :=
  sample_draw rs (same_basis_indices pairs_info)
    (Z.to_nat (sample_size pairs_info num_test_bits)).

(** A compared position whose two outcomes differ. *)
Definition differs (z : (Z * Z) * item) : bool :=
  match snd z with
  | IPair _ t2 => negb (snd (fst z) =? t2)
  | IInt _ => false
  end.

Definition mismatches (test_outcomes : list (Z * Z)) (target : list item) : Z :=
  Z.of_nat (length (List.filter differs (py_zip test_outcomes target))).

(** The invariant of [main]'s list: a pair's index is its position. *)
Definition indexed (pairs_info : list PairInfo) : Prop :=
  forall k p, pairs_info !! k = Some p -> index p = Z.of_nat k.

(** A peer list of (index, outcome) that names the indices [T], in order. *)
Definition aligned (T : list Z) (target : list item) : Prop :=
  Forall2 (fun i it => exists t, it = IPair i t) T target.

(** Everything of a pair but [same_outcome]. *)
Definition core (p : PairInfo) : Z * Z * Z * option bool * option bool :=
  (index p, basis p, outcome p, same_basis p, test_outcome p).

(** The list [main] builds from what the simulator returned. *)
Definition initial_pairs (bit_flips basis_flips : list Z) : list PairInfo :=
  map (fun ibo => mkPair (fst ibo) (fst (snd ibo)) (snd (snd ibo)) None None None)
      (enumerate (py_zip basis_flips bit_flips)).


(** * Properties *)

(** ** Framing *)

Module FramingFacts.

Import Framing.
Local Open Scope string_scope.

(** *** Facts about [split] *)

Lemma append_assoc (a b c : string) : (a ++ b) ++ c = a ++ (b ++ c).
Proof. induction a as [|x a IH]; simpl; [reflexivity | now rewrite IH]. Qed.

Lemma append_empty_r (a : string) : a ++ "" = a.
Proof. induction a as [|x a IH]; simpl; [reflexivity | now rewrite IH]. Qed.

Lemma split_from_nonempty sep k cur s : split_from sep k cur s <> [].
Proof.
  revert k cur. induction s as [|c s IH]; intros k cur; cbn [split_from];
    [discriminate|].
  destruct k; [|apply IH].
  destruct (String.prefix sep (String c s)); [discriminate | apply IH].
Qed.

(** A piece without the delimiter is never cut. *)
Lemma split_free cur t :
  EOF_free t -> split_from EOF 0 cur t = [cur ++ t].
Proof.
  unfold EOF_free. revert cur. induction t as [|c t IH]; intros cur H.
  - simpl. now rewrite append_empty_r.
  - cbn [has_EOF] in H. apply orb_false_iff in H as [Hp Ht].
    cbn [split_from]. rewrite Hp, (IH _ Ht), append_assoc. reflexivity.
Qed.

(** [EOF] has no border: an occurrence cannot start inside a
    delimiter-free message and run into the delimiter behind it. *)
Lemma prefix_straddle c m rest :
  EOF_free (String c m) ->
  String.prefix EOF (String c (m ++ EOF ++ rest)) = false.
Proof.
  unfold EOF_free. cbn [has_EOF]. intros H.
  apply orb_false_iff in H as [Hp _]. revert Hp.
  unfold EOF. cbn [String.prefix append].
  destruct (ascii_dec "E" c) as [<-|]; [|reflexivity].
  destruct m as [|d m]; cbn [String.prefix append]; [reflexivity|].
  destruct (ascii_dec "O" d) as [<-|]; [|reflexivity].
  destruct m as [|e m]; cbn [String.prefix append]; [reflexivity|].
  destruct (ascii_dec "F" e); [|reflexivity].
  destruct m; cbn [String.prefix]; discriminate.
Qed.

Lemma prefix_here rest : String.prefix EOF (EOF ++ rest) = true.
Proof. unfold EOF. cbn. destruct rest; reflexivity. Qed.

Lemma split_delimiter cur rest :
  split_from EOF 0 cur (EOF ++ rest) = cur :: split_from EOF 0 "" rest.
Proof.
  pose proof (prefix_here rest) as Hp. revert Hp.
  change (EOF ++ rest) with (String "E" (String "O" (String "F" rest))).
  intros Hp. cbn [split_from]. rewrite Hp. reflexivity.
Qed.

Lemma split_msg cur m rest :
  EOF_free m ->
  split_from EOF 0 cur (m ++ EOF ++ rest) = (cur ++ m) :: split_from EOF 0 "" rest.
Proof.
  revert cur. induction m as [|c m IH]; intros cur H.
  - rewrite append_empty_r. apply split_delimiter.
  - assert (Hm : EOF_free m).
    { unfold EOF_free in *. cbn [has_EOF] in H.
      now apply orb_false_iff in H as [_ ?]. }
    change (String c m ++ EOF ++ rest) with (String c (m ++ EOF ++ rest)).
    cbn [split_from]. rewrite (prefix_straddle _ _ _ H), (IH _ Hm), append_assoc.
    reflexivity.
Qed.

Lemma split_frame msgs t :
  Forall EOF_free msgs -> EOF_free t ->
  py_split EOF (frame msgs ++ t) = (msgs ++ [t])%list.
Proof.
  unfold py_split. induction 1 as [|m msgs Hm _ IH]; intros Ht.
  - simpl. now rewrite split_free.
  - cbn [frame]. rewrite !append_assoc, (split_msg _ _ _ Hm), (IH Ht).
    reflexivity.
Qed.

Lemma split_has_EOF cur s :
  has_EOF s = true -> (2 <= length (split_from EOF 0 cur s))%nat.
Proof.
  revert cur. induction s as [|c s IH]; intros cur H; [discriminate|].
  cbn [has_EOF] in H. cbn [split_from].
  destruct (String.prefix EOF (String c s)) eqn:Hp.
  - cbn [length].
    pose proof (split_from_nonempty EOF (String.length EOF - 1) "" s) as Hne.
    destruct (split_from EOF (String.length EOF - 1) "" s); [congruence|].
    simpl. lia.
  - apply IH. exact H.
Qed.

Lemma frame_app a b : frame (a ++ b)%list = frame a ++ frame b.
Proof.
  induction a as [|m a IH]; [reflexivity|].
  cbn [frame app]. now rewrite IH, !append_assoc.
Qed.

Lemma bytes_frames groups : bytes_of (map frame groups) = frame (concat groups).
Proof.
  induction groups as [|g groups IH]; [reflexivity|].
  cbn [map bytes_of foldr concat]. fold (bytes_of (map frame groups)).
  now rewrite IH, frame_app.
Qed.

Lemma wire_sends msgs c :
  wire (fold_left send_single_msg msgs c)
  = @app string (wire c) (map (fun m => m ++ EOF) msgs).
Proof.
  revert c. induction msgs as [|m msgs IH]; intros c; cbn [fold_left map].
  - now rewrite app_nil_r.
  - rewrite IH. cbn [send_single_msg wire]. now rewrite <- app_assoc.
Qed.

Lemma bytes_sent msgs : bytes_of (wire (send_all msgs)) = frame msgs.
Proof.
  unfold send_all. rewrite wire_sends. cbn [fresh wire app].
  induction msgs as [|m msgs IH]; [reflexivity|].
  cbn [map bytes_of foldr frame]. fold (bytes_of (map (fun m => m ++ EOF) msgs)).
  now rewrite IH, append_assoc.
Qed.

(** A read made of whole framed messages: the first is returned, the
    others go to the buffer. *)
Lemma recv_whole_read m ms later w :
  Forall EOF_free (m :: ms) ->
  recv_single_msg (mkChannel [] (frame (m :: ms) :: later) w)
  = (Ok m, mkChannel ms later w).
Proof.
  intros Hg. unfold recv_single_msg. cbn [buf_msgs pending wire].
  pose proof (split_frame (m :: ms) "" Hg eq_refl) as Hs.
  rewrite append_empty_r in Hs. rewrite Hs, removelast_last. reflexivity.
Qed.

(** Buffered messages are replayed first, the transport untouched. *)
Lemma recv_buffered m rest pend w :
  recv_single_msg (mkChannel (m :: rest) pend w) = (Ok m, mkChannel rest pend w).
Proof. reflexivity. Qed.

Lemma recv_many_buffer ms n pend w :
  recv_many (length ms + n) (mkChannel ms pend w)
  = let '(xs, o, c) := recv_many n (mkChannel [] pend w) in ((ms ++ xs)%list, o, c).
Proof.
  induction ms as [|m ms IH].
  - cbn [length Nat.add app]. now destruct (recv_many n _) as [[xs o] c].
  - cbn [length Nat.add recv_many]. rewrite recv_buffered, IH.
    now destruct (recv_many n _) as [[xs o] c].
Qed.

Lemma recv_many_groups groups w :
  Forall (fun g => g <> []) groups ->
  Forall (Forall EOF_free) groups ->
  recv_many (length (concat groups)) (mkChannel [] (map frame groups) w)
  = (concat groups, Ok tt, mkChannel [] [] w).
Proof.
  induction groups as [|g groups IH]; intros Hne Hfree; [reflexivity|].
  inversion Hne as [|? ? Hg Hne']; subst. inversion Hfree as [|? ? Hgf Hfree']; subst.
  destruct g as [|m ms]; [congruence|].
  cbn [concat map]. rewrite length_app. cbn [length app Nat.add recv_many].
  rewrite (recv_whole_read _ _ _ _ Hgf), recv_many_buffer, (IH Hne' Hfree').
  reflexivity.
Qed.

(** C7 (as amended).  For every sequence of sends of delimiter-free
    messages and every grouping of the sent bytes into transport reads
    that each hold one or more whole framed messages, the receives return
    the logical messages one per call, in the order they were sent; the
    surplus of a read is buffered and replayed by the following receives
    before the transport is read again. *)
Theorem recv_fifo_whole_reads (groups : list (list string)) :
  Forall (fun g => g <> []) groups ->
  Forall (Forall EOF_free) groups ->
  let msgs := concat groups in
  bytes_of (map frame groups) = bytes_of (wire (send_all msgs))
  /\ recv_many (length msgs) (mkChannel [] (map frame groups) []) = (msgs, Ok tt, fresh)
  /\ (forall m ms later w, Forall EOF_free (m :: ms) ->
        recv_single_msg (mkChannel [] (frame (m :: ms) :: later) w)
        = (Ok m, mkChannel ms later w))
  /\ (forall m rest pend w,
        recv_single_msg (mkChannel (m :: rest) pend w) = (Ok m, mkChannel rest pend w)).
Proof.
  intros Hne Hfree msgs. repeat split.
  - subst msgs. now rewrite bytes_frames, bytes_sent.
  - apply recv_many_groups; assumption.
  - apply recv_whole_read.
Qed.

Lemma recv_fifo_whole_reads_witness :
  recv_many 3 (mkChannel [] ["helloEOFworldEOF"; "byeEOF"] [])
  = (["hello"; "world"; "bye"], Ok tt, fresh).
Proof.
  refine (proj1 (proj2 (recv_fifo_whole_reads [["hello"; "world"]; ["bye"]] _ _))).
  - repeat constructor; discriminate.
  - repeat constructor.
Defined.

(** C7 as first stated fails: a transport read may end inside a message.
    One message ["ab"] is sent; the transport delivers its five bytes as
    ["abE"] and ["OF"]; the first receive finds no delimiter and raises. *)
Lemma recv_fifo_any_partition_fails :
  ~ (forall msgs reads : list string,
       bytes_of reads = bytes_of (wire (send_all msgs)) ->
       (recv_many (length msgs) (mkChannel [] reads [])).1.1 = msgs).
Proof.
  intros H. specialize (H ["ab"] ["abE"; "OF"] eq_refl). vm_compute in H.
  discriminate H.
Qed.

(** C10.  With an empty buffer [recv_single_msg] returns a message
    exactly when the read holds a delimiter; a read without one makes the
    access to the first element fail with [IndexError]; and the bytes
    behind the last delimiter of a read are dropped: the call behaves as
    if they had not been there. *)
Theorem recv_needs_delimiter (data : string) (later w : list string) :
  ((exists m, (recv_single_msg (mkChannel [] (data :: later) w)).1 = Ok m)
     <-> has_EOF data = true)
  /\ (has_EOF data = false ->
        recv_single_msg (mkChannel [] (data :: later) w)
        = (Raise IndexError, mkChannel [] later w))
  /\ (forall msgs trailing, Forall EOF_free msgs -> EOF_free trailing ->
        recv_single_msg (mkChannel [] ((frame msgs ++ trailing) :: later) w)
        = recv_single_msg (mkChannel [] (frame msgs :: later) w)).
Proof.
  assert (Hno : has_EOF data = false ->
                recv_single_msg (mkChannel [] (data :: later) w)
                = (Raise IndexError, mkChannel [] later w)).
  { intros Hd. unfold recv_single_msg, py_split. cbn [buf_msgs pending wire].
    rewrite (split_free "" data Hd). reflexivity. }
  split; [|split].
  - split.
    + intros [m Hm]. destruct (has_EOF data) eqn:Hd; [reflexivity|].
      rewrite (Hno eq_refl) in Hm. discriminate Hm.
    + intros Hd. unfold recv_single_msg, py_split. cbn [buf_msgs pending wire].
      pose proof (split_has_EOF "" data Hd) as Hlen.
      destruct (split_from EOF 0 "" data) as [|x [|y l]]; cbn [length] in Hlen;
        [lia | lia |].
      cbn [removelast]. destruct (removelast (y :: l)) eqn:E; eexists; reflexivity.
  - exact Hno.
  - intros msgs trailing Hm Ht. unfold recv_single_msg. cbn [buf_msgs pending wire].
    rewrite (split_frame msgs trailing Hm Ht).
    pose proof (split_frame msgs "" Hm eq_refl) as Hs.
    rewrite append_empty_r in Hs. rewrite Hs, !removelast_last. reflexivity.
Qed.

Lemma recv_needs_delimiter_witness :
  recv_single_msg (mkChannel [] ["no delimiter"; "nextEOF"] [])
  = (Raise IndexError, mkChannel [] ["nextEOF"] []).
Proof.
  apply (proj1 (proj2 (recv_needs_delimiter "no delimiter" ["nextEOF"] []))).
  reflexivity.
Defined.

End FramingFacts.

(** ** Python list primitives *)

Section ListPrimitives.
Context {A : Type}.
Implicit Types (l : list A) (k : nat).

Lemma py_norm_index_nat n k : (k < n)%nat -> py_norm_index n (Z.of_nat k) = Some k.
Proof.
  intros Hk. unfold py_norm_index.
  destruct (Z.leb_spec 0 (Z.of_nat k)); [|lia].
  destruct (Z.ltb_spec (Z.of_nat k) (Z.of_nat n)); [|lia].
  cbn. now rewrite Nat2Z.id.
Qed.

Lemma py_norm_index_lt n i k : py_norm_index n i = Some k -> (k < n)%nat.
Proof.
  unfold py_norm_index.
  destruct (Z.leb_spec 0 i); destruct (Z.ltb_spec i (Z.of_nat n)); cbn;
    try (intros [= <-]; lia);
    destruct (Z.ltb_spec i 0); destruct (Z.leb_spec (- Z.of_nat n) i); cbn;
    try discriminate; intros [= <-]; lia.
Qed.

Lemma py_getitem_nat l k x : l !! k = Some x -> py_getitem l (Z.of_nat k) = Ok x.
Proof.
  intros Hx. unfold py_getitem.
  rewrite py_norm_index_nat by (eapply lookup_lt_Some; eassumption).
  now rewrite Hx.
Qed.

Lemma py_setattr_at_nat l k f :
  (k < length l)%nat -> py_setattr_at l (Z.of_nat k) f = Ok (alter f k l).
Proof. intros Hk. unfold py_setattr_at. now rewrite py_norm_index_nat. Qed.

Lemma py_setattr_at_length l i f l' : py_setattr_at l i f = Ok l' -> length l' = length l.
Proof.
  unfold py_setattr_at. destruct (py_norm_index _ _); [|discriminate].
  intros [= <-]. apply length_alter.
Qed.

Lemma length_enumerate_from (k : Z) l : length (enumerate_from k l) = length l.
Proof. revert k. induction l as [|x l IH]; intros k; cbn; [|rewrite IH]; reflexivity. Qed.

Lemma lookup_enumerate_from (k : Z) l j x :
  l !! j = Some x -> enumerate_from k l !! j = Some (k + Z.of_nat j, x).
Proof.
  revert k j. induction l as [|y l IH]; intros k j; [discriminate|].
  destruct j as [|j]; cbn.
  - intros [= ->]. do 2 f_equal. lia.
  - intros Hx. rewrite (IH _ _ Hx). do 2 f_equal. lia.
Qed.
End ListPrimitives.

(** ** Basis reconciliation *)

Lemma length_reconcile pairs peer : length (reconcile pairs peer) = length pairs.
Proof.
  revert peer. induction pairs as [|p ps IH]; intros [|b bs]; cbn; try reflexivity.
  now rewrite IH.
Qed.

Lemma lookup_reconcile pairs peer i p b :
  pairs !! i = Some p -> peer !! i = Some b ->
  reconcile pairs peer !! i = Some (set_same_basis (basis p =? b) p).
Proof.
  revert peer i. induction pairs as [|q ps IH]; intros [|c bs] [|i]; cbn;
    try discriminate.
  - now intros [= ->] [= ->].
  - apply IH.
Qed.

Lemma same_basis_reconcile pairs peer :
  length peer = length pairs ->
  map same_basis (reconcile pairs peer)
  = zip_with (fun a b => Some (a =? b)) (map basis pairs) peer.
Proof.
  revert peer. induction pairs as [|p ps IH]; intros [|b bs]; cbn; try discriminate;
    [reflexivity|].
  intros [= Hlen]. now rewrite IH.
Qed.

(** The loop, started behind the already reconciled prefix [pre]. *)
Lemma filter_bases_loop_from pre suf peer :
  let k := Z.of_nat (length pre) in
  filter_bases_loop
    (py_zip (map (fun ip => (fst ip, basis (snd ip))) (enumerate_from k suf))
            (map pack_pair (enumerate_from k peer)))
    (pre ++ suf)
  = Ok (pre ++ reconcile suf peer).
Proof.
  revert pre peer. induction suf as [|p suf IH]; intros pre peer k; [reflexivity|].
  destruct peer as [|b peer]; [reflexivity|].
  cbn [enumerate_from map py_zip filter_bases_loop fst snd pack_pair unpack_pair obind].
  rewrite Z.eqb_refl. subst k.
  rewrite py_setattr_at_nat by (rewrite length_app; cbn; lia).
  cbn [obind].
  replace (length pre) with (length pre + 0)%nat at 3 by lia.
  rewrite alter_app_r. cbn [alter list_alter].
  replace (Z.of_nat (length pre) + 1) with (Z.of_nat (length (pre ++ [set_same_basis (basis p =? b) p])))
    by (rewrite length_app; cbn; lia).
  rewrite (cons_middle _ pre suf), app_assoc, IH, <- app_assoc. reflexivity.
Qed.

Lemma filter_bases_loop_spec pairs peer :
  filter_bases_loop (py_zip (local_bases pairs) (bases_payload peer)) pairs
  = Ok (reconcile pairs peer).
Proof. exact (filter_bases_loop_from [] pairs peer). Qed.

(** The run of [filter_bases] against the peer's payload. *)
Lemma filter_bases_run pairs peer header rest out :
  filter_bases pairs (mkSocket (Structured header (bases_payload peer) :: rest) out)
  = (Ok (reconcile pairs peer),
     mkSocket rest (out ++ [Structured "Bases" (map pack_pair (local_bases pairs))])).
Proof.
  unfold filter_bases, bind, send_structured, send, recv_structured_payload,
    bind, recv, ret, lift.
  cbn [inbox outbox]. rewrite filter_bases_loop_spec. reflexivity.
Qed.

(** C4.  Against a peer list that is index-aligned with the local one
    and as long, [filter_bases] returns, having sent the local bases and
    consumed the peer's; position [i] of the result is the pair that was
    there with [same_basis] set to whether the two bases at [i] agree and
    nothing else changed; the [same_basis] column is a function of the
    two basis lists alone; and (Z,X,Z) against (Z,Z,Z) gives
    (true, false, true). *)
Theorem filter_bases_reconciles
    (pairs_info : list PairInfo) (peer_basis : list Z)
    (header : string) (rest out : list message) :
  length peer_basis = length pairs_info ->
  exists pairs',
    filter_bases pairs_info
      (mkSocket (Structured header (bases_payload peer_basis) :: rest) out)
    = (Ok pairs',
       mkSocket rest (out ++ [Structured "Bases" (map pack_pair (local_bases pairs_info))]))
    /\ length pairs' = length pairs_info
    /\ (forall i p b,
          pairs_info !! i = Some p -> peer_basis !! i = Some b ->
          pairs' !! i = Some (mkPair (index p) (basis p) (outcome p)
                                     (Some (basis p =? b))
                                     (test_outcome p) (same_outcome p)))
    /\ map same_basis pairs'
       = zip_with (fun a b => Some (a =? b)) (map basis pairs_info) peer_basis
    /\ (forall o0 o1 o2,
          map same_basis
            (reconcile [mkPair 0 basis_Z o0 None None None;
                        mkPair 1 basis_X o1 None None None;
                        mkPair 2 basis_Z o2 None None None]
                       [basis_Z; basis_Z; basis_Z])
          = [Some true; Some false; Some true]).
Proof.
  intros Hlen. exists (reconcile pairs_info peer_basis). split; [|split; [|split; [|split]]].
  - apply filter_bases_run.
  - apply length_reconcile.
  - intros i p b Hp Hb. now apply lookup_reconcile.
  - now apply same_basis_reconcile.
  - reflexivity.
Qed.

Lemma filter_bases_reconciles_witness :
  exists pairs',
    filter_bases [mkPair 0 basis_Z 1 None None None;
                  mkPair 1 basis_X 0 None None None;
                  mkPair 2 basis_Z 1 None None None]
      (mkSocket [Structured "Bases" (bases_payload [basis_Z; basis_Z; basis_Z])] [])
    = (Ok pairs',
       mkSocket [] [Structured "Bases" [IPair 0 0; IPair 1 1; IPair 2 0]])
    /\ map same_basis pairs' = [Some true; Some false; Some true].
Proof.
  destruct (filter_bases_reconciles
              [mkPair 0 basis_Z 1 None None None;
               mkPair 1 basis_X 0 None None None;
               mkPair 2 basis_Z 1 None None None]
              [basis_Z; basis_Z; basis_Z] "Bases" [] [] eq_refl)
    as (pairs' & Hrun & _ & _ & Hsame & _).
  exists pairs'. split; [exact Hrun | exact Hsame].
Defined.

(** ** Key extraction and the counts of the report *)

Lemma sum_flags_set l : Forall is_Some l -> sum_flags l = Ok (count_true l).
Proof.
  unfold count_true. induction 1 as [|o l [b ->] _ IH]; [reflexivity|].
  cbn [sum_flags]. rewrite IH. cbn [obind]. f_equal.
  destruct b; cbn [List.filter truthy length Z.b2z]; lia.
Qed.

Lemma count_true_bounds l : 0 <= count_true l <= Z.of_nat (length l).
Proof.
  unfold count_true. pose proof (List.filter_length_le truthy l). lia.
Qed.

Lemma count_true_same_basis pairs :
  count_true (map same_basis pairs)
  = Z.of_nat (length (List.filter (fun p => truthy (same_basis p)) pairs)).
Proof.
  unfold count_true. f_equal.
  induction pairs as [|p ps IH]; [reflexivity|].
  cbn [map List.filter]. destruct (truthy (same_basis p)); cbn [length]; now rewrite IH.
Qed.

(** The matched pairs are the compared ones and the key ones. *)
Lemma matched_split pairs :
  Z.of_nat (length (List.filter (fun p => truthy (same_basis p)) pairs))
  = count_true (map test_outcome (List.filter (fun p => truthy (same_basis p)) pairs))
    + Z.of_nat (length (raw_key_of pairs)).
Proof.
  unfold count_true, raw_key_of. rewrite length_map.
  induction pairs as [|p ps IH]; [reflexivity|].
  cbn [List.filter].
  destruct (truthy (same_basis p)); cbn [negb andb map List.filter length];
    [|rewrite andb_false_r; exact IH].
  rewrite andb_true_r.
  destruct (truthy (test_outcome p)); cbn [negb length]; lia.
Qed.

Lemma raw_key_qualifies pairs :
  fully_annotated pairs ->
  raw_key_of pairs = map outcome (List.filter qualifies pairs).
Proof.
  unfold raw_key_of. induction 1 as [|p ps ([sb Hsb] & [t Ht] & _) _ IH]; [reflexivity|].
  cbn [List.filter]. unfold qualifies at 1. rewrite Hsb, Ht.
  destruct sb, t; cbn [truthy negb andb map]; now rewrite IH.
Qed.

Lemma filter_sorted_index (f : PairInfo -> bool) pairs :
  StronglySorted Z.lt (map index pairs) ->
  StronglySorted Z.lt (map index (List.filter f pairs)).
Proof.
  induction pairs as [|p ps IH]; intros Hs; [constructor|].
  cbn [map] in Hs. apply StronglySorted_inv in Hs as [Hs Hall].
  cbn [List.filter]. destruct (f p); [|now apply IH].
  cbn [map]. constructor; [now apply IH|].
  rewrite List.Forall_forall in *. intros x Hx. apply Hall.
  apply in_map_iff in Hx as (q & <- & Hq). apply in_map.
  now apply List.filter_In in Hq as [Hq _].
Qed.

Lemma py_slice_to_nonneg {A} (l : list A) (L : Z) :
  0 <= L -> py_slice_to l L = take (Z.to_nat L) l.
Proof. intros HL. unfold py_slice_to. now destruct (Z.leb_spec 0 L); [|lia]. Qed.

Lemma qber_of_total diff n : exists q, qber_of diff n = Ok q.
Proof.
  unfold qber_of, py_truediv. destruct (n =? 0); eexists; reflexivity.
Qed.

(** The report of a fully annotated sequence. *)
Lemma report_of_annotated pairs num_bits L :
  fully_annotated pairs ->
  exists rep,
    report_of pairs num_bits L = Ok rep
    /\ raw_key rep = raw_key_of pairs
    /\ secret_key rep = py_slice_to (raw_key_of pairs) L
    /\ same_basis_count rep = count_true (map same_basis pairs)
    /\ outcome_comparison_count rep
       = count_true (map test_outcome
                       (List.filter (fun p => truthy (same_basis p)) pairs))
    /\ diff_outcome_count rep
       = outcome_comparison_count rep
         - count_true (map same_outcome
                         (List.filter (fun p => truthy (test_outcome p)) pairs))
    /\ qber_of (diff_outcome_count rep) (outcome_comparison_count rep) = Ok (qber rep)
    /\ key_rate_potential rep = key_rate_of (qber rep).
Proof.
  intros Hann. unfold fully_annotated in Hann.
  unfold report_of, count_same_basis, count_compared, count_same_outcome.
  assert (H1 : Forall is_Some (map same_basis pairs)).
  { apply List.Forall_map. eapply List.Forall_impl; [|exact Hann]. now intros p (? & _). }
  assert (H2 : Forall is_Some
                 (map test_outcome
                    (List.filter (fun p => truthy (same_basis p)) pairs))).
  { apply List.Forall_map. rewrite List.Forall_forall. intros p Hp.
    apply List.filter_In in Hp as [Hp _].
    rewrite List.Forall_forall in Hann. now destruct (Hann p Hp) as (_ & ? & _). }
  assert (H3 : Forall is_Some
                 (map same_outcome
                    (List.filter (fun p => truthy (test_outcome p)) pairs))).
  { apply List.Forall_map. rewrite List.Forall_forall. intros p Hp.
    apply List.filter_In in Hp as [Hp Ht].
    rewrite List.Forall_forall in Hann. destruct (Hann p Hp) as (_ & _ & Hso).
    apply Hso. now destruct (test_outcome p) as [[|]|]. }
  rewrite (sum_flags_set _ H1), (sum_flags_set _ H2), (sum_flags_set _ H3).
  cbn [obind].
  destruct (qber_of_total
              (count_true (map test_outcome
                             (List.filter (fun p => truthy (same_basis p)) pairs))
               - count_true (map same_outcome
                               (List.filter (fun p => truthy (test_outcome p)) pairs)))
              (count_true (map test_outcome
                             (List.filter (fun p => truthy (same_basis p)) pairs))))
    as [q Hq].
  rewrite Hq. cbn [obind]. eexists. split; [reflexivity|].
  cbn [raw_key secret_key same_basis_count outcome_comparison_count
       diff_outcome_count qber key_rate_potential].
  repeat split; try reflexivity. exact Hq.
Qed.

(** C1.  For a fully annotated pair sequence and a requested key length
    [L] (a length: not negative), the run reports; the raw key is the
    outcomes of exactly the pairs with [same_basis == true] and
    [is_test == false], in the order of the sequence, which is ascending
    index order when the indices ascend; the secret key is its first [L]
    bits, all of them when fewer qualify; so the secret key is no longer
    than [L] and the raw key no longer than [same_basis_count -
    outcome_comparison_count]. *)
Theorem raw_key_extraction (pairs_info : list PairInfo) (num_bits L : Z) :
  fully_annotated pairs_info ->
  0 <= L ->
  exists rep,
    report_of pairs_info num_bits L = Ok rep
    /\ raw_key rep = map outcome (List.filter qualifies pairs_info)
    /\ (StronglySorted Z.lt (map index pairs_info) ->
        StronglySorted Z.lt (map index (List.filter qualifies pairs_info)))
    /\ secret_key rep = take (Z.to_nat L) (raw_key rep)
    /\ (Z.of_nat (length (raw_key rep)) <= L -> secret_key rep = raw_key rep)
    /\ Z.of_nat (length (secret_key rep)) <= L
    /\ Z.of_nat (length (raw_key rep))
       <= same_basis_count rep - outcome_comparison_count rep.
Proof.
  intros Hann HL.
  destruct (report_of_annotated pairs_info num_bits L Hann)
    as (rep & Hrep & Hraw & Hsec & Hsbc & Hocc & _).
  exists rep. split; [exact Hrep|].
  rewrite Hsec, Hraw, (py_slice_to_nonneg _ _ HL).
  split; [now apply raw_key_qualifies|].
  split; [apply filter_sorted_index|].
  split; [reflexivity|].
  split; [intros Hlen; apply take_ge; lia|].
  split; [rewrite length_take; lia|].
  rewrite Hsbc, Hocc, count_true_same_basis, matched_split. lia.
Qed.

Lemma raw_key_extraction_witness :
  exists rep,
    report_of [mkPair 0 0 1 (Some true) (Some false) None;
               mkPair 1 1 0 (Some false) (Some false) None;
               mkPair 2 1 1 (Some true) (Some true) (Some true);
               mkPair 3 0 0 (Some true) (Some false) None;
               mkPair 4 0 1 (Some true) (Some false) None] 5 2 = Ok rep
    /\ raw_key rep = [1; 0; 1]
    /\ secret_key rep = [1; 0].
Proof.
  destruct (raw_key_extraction
              [mkPair 0 0 1 (Some true) (Some false) None;
               mkPair 1 1 0 (Some false) (Some false) None;
               mkPair 2 1 1 (Some true) (Some true) (Some true);
               mkPair 3 0 0 (Some true) (Some false) None;
               mkPair 4 0 1 (Some true) (Some false) None] 5 2)
    as (rep & Hrep & Hraw & _ & Hsec & _).
  - repeat constructor; cbn; eauto; discriminate.
  - lia.
  - exists rep. split; [exact Hrep|]. split; [exact Hraw|].
    rewrite Hsec, Hraw. reflexivity.
Defined.

(** ** Binary entropy and the key-rate potential *)

Section Entropy.
Local Open Scope R_scope.

Lemma h_0 : h 0 = 0.
Proof. unfold h. now destruct (Req_dec_T 0 0). Qed.

Lemma h_1 : h 1 = 0.
Proof. unfold h. destruct (Req_dec_T 1 0); [reflexivity|]. now destruct (Req_dec_T 1 1). Qed.

Lemma h_inside p :
  p <> 0 -> p <> 1 -> h p = - p * log2 p - (1 - p) * log2 (1 - p).
Proof.
  intros H0 H1. unfold h.
  destruct (Req_dec_T p 0); [contradiction|].
  now destruct (Req_dec_T p 1); [contradiction|].
Qed.

Lemma ln_2_pos : 0 < ln 2.
Proof. rewrite <- ln_1. apply ln_increasing; lra. Qed.

Lemma log2_neg x : 0 < x -> x < 1 -> log2 x < 0.
Proof.
  intros Hx0 Hx1. unfold log2.
  assert (Hln : ln x < 0) by (rewrite <- ln_1; now apply ln_increasing).
  pose proof ln_2_pos as H2.
  assert (Hinv : 0 < / ln 2) by now apply Rinv_0_lt_compat.
  unfold Rdiv. nra.
Qed.

Lemma log2_half : log2 (/ 2) = -1.
Proof.
  unfold log2. rewrite ln_Rinv by lra. pose proof ln_2_pos. field. lra.
Qed.

Lemma h_nonneg p : 0 <= p <= 1 -> 0 <= h p.
Proof.
  intros [Hp0 Hp1].
  destruct (Req_dec_T p 0) as [->|N0]; [rewrite h_0; lra|].
  destruct (Req_dec_T p 1) as [->|N1]; [rewrite h_1; lra|].
  rewrite (h_inside p N0 N1).
  assert (L1 : log2 p < 0) by (apply log2_neg; lra).
  assert (L2 : log2 (1 - p) < 0) by (apply log2_neg; lra).
  nra.
Qed.

Lemma h_half : h (/ 2) = 1.
Proof.
  rewrite h_inside by lra.
  replace (1 - / 2) with (/ 2) by lra. rewrite log2_half. lra.
Qed.

Lemma key_rate_of_le_1 q : (0 <= q <= 1)%Q -> key_rate_of q <= 1.
Proof.
  intros [Hq0 Hq1]. unfold key_rate_of.
  apply Qle_Rle in Hq0, Hq1. rewrite RMicromega.Q2R_0 in Hq0.
  rewrite RMicromega.Q2R_1 in Hq1.
  pose proof (h_nonneg (Q2R q) (conj Hq0 Hq1)). lra.
Qed.

Lemma key_rate_of_1 q : (q == 1)%Q -> key_rate_of q = 1.
Proof.
  intros Hq. unfold key_rate_of.
  rewrite (Qeq_eqR _ _ Hq), RMicromega.Q2R_1, h_1. lra.
Qed.
End Entropy.

(** What a returned report was computed from. *)
Lemma report_of_inv pairs num_bits L rep :
  report_of pairs num_bits L = Ok rep ->
  count_same_basis pairs = Ok (same_basis_count rep)
  /\ count_compared pairs = Ok (outcome_comparison_count rep)
  /\ (exists same,
        count_same_outcome pairs = Ok same
        /\ diff_outcome_count rep = outcome_comparison_count rep - same)
  /\ qber_of (diff_outcome_count rep) (outcome_comparison_count rep) = Ok (qber rep)
  /\ key_rate_potential rep = key_rate_of (qber rep)
  /\ raw_key rep = raw_key_of pairs
  /\ secret_key rep = py_slice_to (raw_key_of pairs) L.
Proof.
  unfold report_of.
  destruct (count_same_basis pairs) as [sbc| |]; cbn [obind]; try discriminate.
  destruct (count_compared pairs) as [occ| |]; cbn [obind]; try discriminate.
  destruct (count_same_outcome pairs) as [same| |]; cbn [obind]; try discriminate.
  destruct (qber_of (occ - same) occ) as [q| |] eqn:Hq; cbn [obind]; try discriminate.
  intros [= <-].
  cbn [same_basis_count outcome_comparison_count diff_outcome_count qber
       key_rate_potential raw_key secret_key].
  repeat split; try reflexivity; [|exact Hq]. exists same. split; reflexivity.
Qed.

(** ** Error estimation *)

Lemma lookup_map {A B} (f : A -> B) (l : list A) (i : nat) :
  map f l !! i = f <$> (l !! i).
Proof. exact (list_lookup_fmap f l i). Qed.

Lemma map_alter_same {A B} (g : A -> B) (f : A -> A) (k : nat) (l : list A) :
  (forall x, g (f x) = g x) -> map g (alter f k l) = map g l.
Proof.
  intros Hg. revert k. induction l as [|x l IH]; intros [|k]; cbn; try reflexivity.
  - now rewrite Hg.
  - now rewrite IH.
Qed.

Lemma sample_draw_subset rs pool k x :
  x ∈ sample_draw rs pool k -> x ∈ pool.
Proof.
  revert rs pool. induction k as [|k IH]; intros rs pool; cbn [sample_draw].
  - intros H. inversion H.
  - destruct pool as [|x0 pool0] eqn:Hpool; [intros H; inversion H|].
    rewrite <- Hpool. set (j := (hd 0%nat rs mod length pool)%nat).
    assert (Hj : (j < length pool)%nat)
      by (apply Nat.mod_upper_bound; rewrite Hpool; discriminate).
    intros Hx. apply elem_of_cons in Hx as [->|Hx].
    + destruct (nth_lookup_or_length pool j x0) as [Hn|Hn]; [|lia].
      eapply list_elem_of_lookup_2; exact Hn.
    + eapply list_elem_of_delete_inv, IH; exact Hx.
Qed.

Lemma sample_draw_length rs pool k :
  length (sample_draw rs pool k) = Nat.min k (length pool).
Proof.
  revert rs pool. induction k as [|k IH]; intros rs pool; cbn [sample_draw];
    [reflexivity|].
  destruct pool as [|x0 pool0] eqn:Hpool; [reflexivity|].
  rewrite <- Hpool. set (j := (hd 0%nat rs mod length pool)%nat).
  assert (Hj : (j < length pool)%nat)
    by (apply Nat.mod_upper_bound; rewrite Hpool; discriminate).
  cbn [length]. rewrite IH, length_delete by now apply lookup_lt_is_Some.
  rewrite Hpool in *. cbn [length] in *. lia.
Qed.

Lemma random_sample_ok rs pairs k :
  0 <= k ->
  random_sample rs (same_basis_indices pairs) (sample_size pairs k)
  = Ok (test_indices_of rs pairs k).
Proof.
  intros Hk. unfold random_sample, sample_size, test_indices_of.
  destruct (Z.leb_spec 0 (Z.min k (Z.of_nat (length (same_basis_indices pairs)))));
    [|lia].
  destruct (Z.leb_spec (Z.min k (Z.of_nat (length (same_basis_indices pairs))))
              (Z.of_nat (length (same_basis_indices pairs)))); [|lia].
  reflexivity.
Qed.

Lemma random_sample_inv rs pairs k T :
  random_sample rs (same_basis_indices pairs) (sample_size pairs k) = Ok T ->
  T = test_indices_of rs pairs k.
Proof.
  unfold random_sample, test_indices_of.
  destruct (_ && _); [|discriminate]. now intros [= <-].
Qed.

Lemma test_indices_matched rs pairs k i :
  i ∈ test_indices_of rs pairs k -> i ∈ same_basis_indices pairs.
Proof. apply sample_draw_subset. Qed.

Lemma length_mark_tests T pairs : length (mark_tests T pairs) = length pairs.
Proof. apply length_map. Qed.

Lemma lookup_mark_tests T pairs j :
  mark_tests T pairs !! j
  = (fun p => set_test_outcome (bool_decide (index p ∈ T)) p) <$> (pairs !! j).
Proof. apply lookup_map. Qed.

Lemma collect_outcomes_fst pairs T tos :
  collect_outcomes pairs T = Ok tos -> map fst tos = T.
Proof.
  revert tos. induction T as [|i T IH]; intros tos; cbn [collect_outcomes].
  - now intros [= <-].
  - destruct (py_getitem pairs i); cbn [obind]; try discriminate.
    destruct (collect_outcomes pairs T); cbn [obind]; try discriminate.
    intros [= <-]. cbn. now rewrite (IH _ eq_refl).
Qed.

Lemma collect_outcomes_ok pairs T :
  (forall i, i ∈ T -> exists k, i = Z.of_nat k /\ (k < length pairs)%nat) ->
  exists tos, collect_outcomes pairs T = Ok tos.
Proof.
  induction T as [|i T IH]; intros HT; cbn [collect_outcomes]; [now eexists|].
  destruct (HT i) as (k & -> & Hk); [left|].
  destruct (lookup_lt_is_Some_2 pairs k Hk) as [p Hp].
  rewrite (py_getitem_nat _ _ _ Hp). cbn [obind].
  destruct IH as [tos ->]; [intros j Hj; apply HT; now right|].
  cbn [obind]. now eexists.
Qed.

Lemma compare_loop_core zs pairs n pairs' n' :
  compare_loop zs pairs n = Ok (pairs', n') ->
  map core pairs' = map core pairs
  /\ length pairs' = length pairs
  /\ n' = n + Z.of_nat (length (List.filter differs zs)).
Proof.
  revert pairs n. induction zs as [|[[i1 t1] it] zs IH]; intros pairs n;
    cbn [compare_loop].
  - intros [= <- <-]. cbn. repeat split; lia.
  - destruct it as [z|i2 t2]; cbn [unpack_pair obind]; [discriminate|].
    destruct (i1 =? i2); [|discriminate].
    cbn [List.filter]. unfold differs at 1. cbn [fst snd].
    destruct (negb (t1 =? t2));
      (destruct (py_setattr_at pairs i1 _) as [ps1| |] eqn:Hset; cbn [obind];
       try discriminate; intros Hloop;
       destruct (IH _ _ Hloop) as (Hcore & Hlen & Hn);
       pose proof (py_setattr_at_length _ _ _ _ Hset) as Hlen1;
       unfold py_setattr_at in Hset;
       destruct (py_norm_index (length pairs) i1); [|discriminate];
       injection Hset as <-;
       rewrite (map_alter_same core) in Hcore by reflexivity;
       repeat split; [exact Hcore | lia | cbn [length]; lia]).
Qed.

(** What [estimate_error_rate] went through when it returned. *)
Lemma estimate_error_rate_inv rs pairs k sock pairs' rate sock' :
  estimate_error_rate rs pairs k sock = (Ok (pairs', rate), sock') ->
  let T := test_indices_of rs pairs k in
  exists tos hdr target rest num_error,
    collect_outcomes (mark_tests T pairs) T = Ok tos
    /\ inbox sock = Structured hdr target :: rest
    /\ compare_loop (py_zip tos target) (mark_tests T pairs) 0 = Ok (pairs', num_error)
    /\ py_truediv num_error k = Ok rate
    /\ sock' = mkSocket rest
                 (outbox sock ++ [Structured "Test indices" (map IInt T)]
                              ++ [Structured "Test outcomes" (map pack_pair tos)]).
Proof.
  cbv zeta.
  unfold estimate_error_rate, bind, lift, ret, send_structured, send,
    recv_structured_payload, bind, recv, lift, ret.
  destruct (random_sample rs _ _) as [T| |] eqn:HT; try discriminate.
  apply random_sample_inv in HT as ->.
  destruct (collect_outcomes _ _) as [tos| |] eqn:Htos; try discriminate.
  cbn [inbox outbox].
  destruct (inbox sock) as [|[s|hdr target] rest] eqn:Hin; try discriminate.
  cbn [inbox outbox].
  destruct (compare_loop _ _ _) as [[ps ne]| |] eqn:Hloop; try discriminate.
  destruct (py_truediv ne k) as [q| |] eqn:Hq; try discriminate.
  intros [= <- <- <-]. exists tos, hdr, target, rest, ne.
  rewrite <- app_assoc. repeat split; assumption.
Qed.

(** C9.  When [estimate_error_rate] returns, every position holds the
    pair it held, with [index] and [same_basis] as they were and
    [test_outcome] set to a boolean: whether the pair's index is among the
    sampled indices, which all come from the matched-basis pool.  Pairs
    with [same_basis == false] are marked too, so no [test_outcome] is
    left unset for the raw-key filter. *)
Theorem estimate_marks_every_pair
    (rs : list nat) (pairs_info : list PairInfo) (num_test_bits : Z)
    (sock sock' : Socket) (pairs' : list PairInfo) (rate : Q) :
  estimate_error_rate rs pairs_info num_test_bits sock = (Ok (pairs', rate), sock') ->
  let T := test_indices_of rs pairs_info num_test_bits in
  (forall i, i ∈ T -> i ∈ same_basis_indices pairs_info)
  /\ length pairs' = length pairs_info
  /\ (forall j p, pairs_info !! j = Some p ->
        exists p', pairs' !! j = Some p'
                   /\ index p' = index p
                   /\ same_basis p' = same_basis p
                   /\ test_outcome p' = Some (bool_decide (index p ∈ T)))
  /\ Forall (fun p' => exists b, test_outcome p' = Some b
                                /\ (b = true <-> index p' ∈ T)) pairs'.
Proof.
  intros Hrun T.
  destruct (estimate_error_rate_inv _ _ _ _ _ _ _ Hrun)
    as (tos & hdr & target & rest & ne & _ & _ & Hloop & _).
  fold T in Hloop.
  destruct (compare_loop_core _ _ _ _ _ Hloop) as (Hcore & Hlen & _).
  rewrite length_mark_tests in Hlen.
  assert (Hpos : forall j p, pairs_info !! j = Some p ->
            exists p', pairs' !! j = Some p'
                       /\ index p' = index p
                       /\ same_basis p' = same_basis p
                       /\ test_outcome p' = Some (bool_decide (index p ∈ T))).
  { intros j p Hp.
    assert (Hj : (map core pairs') !! j = (map core (mark_tests T pairs_info)) !! j)
      by now rewrite Hcore.
    rewrite !lookup_map, lookup_mark_tests, Hp in Hj. cbn in Hj.
    destruct (pairs' !! j) as [p'|]; [|discriminate]. cbn in Hj.
    injection Hj as Hi _ _ Hsb Ht. now exists p'. }
  split; [apply test_indices_matched|]. split; [exact Hlen|]. split; [exact Hpos|].
  apply Forall_lookup. intros j p' Hp'.
  destruct (lookup_lt_is_Some_2 pairs_info j) as [p Hp];
    [rewrite <- Hlen; eapply lookup_lt_Some; exact Hp'|].
  destruct (Hpos j p Hp) as (p'' & Hp'' & Hi & _ & Ht).
  rewrite Hp' in Hp''. injection Hp'' as <-.
  exists (bool_decide (index p ∈ T)). split; [exact Ht|].
  rewrite Hi. apply bool_decide_eq_true.
Qed.

Lemma estimate_marks_every_pair_witness :
  exists pairs' sock',
    estimate_error_rate [1%nat]
      [mkPair 0 0 1 (Some true) None None;
       mkPair 1 1 0 (Some false) None None;
       mkPair 2 0 1 (Some true) None None] 1
      (mkSocket [Structured "Test outcomes" [IPair 2 1]] [])
    = (Ok (pairs', 0 # 1), sock')
    /\ length pairs' = 3%nat
    /\ Forall (fun p' => is_Some (test_outcome p')) pairs'.
Proof.
  eexists. eexists. split; [lazy; reflexivity|].
  destruct (estimate_marks_every_pair [1%nat]
              [mkPair 0 0 1 (Some true) None None;
               mkPair 1 1 0 (Some false) None None;
               mkPair 2 0 1 (Some true) None None] 1
              (mkSocket [Structured "Test outcomes" [IPair 2 1]] [])
              _ _ _ eq_refl) as (_ & Hlen & _ & Hall).
  split; [exact Hlen|].
  eapply List.Forall_impl; [|exact Hall]. intros p' (b & -> & _). now exists b.
Defined.

Lemma indexed_position pairs i :
  indexed pairs -> i ∈ map index pairs ->
  exists k, i = Z.of_nat k /\ (k < length pairs)%nat.
Proof.
  intros Hidx Hi. apply list_elem_of_In, in_map_iff in Hi as (p & <- & Hp).
  apply list_elem_of_In, list_elem_of_lookup in Hp as [k Hk].
  exists k. split; [now apply Hidx | eapply lookup_lt_Some; exact Hk].
Qed.

Lemma matched_is_index pairs i :
  i ∈ same_basis_indices pairs -> i ∈ map index pairs.
Proof.
  unfold same_basis_indices. rewrite !list_elem_of_In, !in_map_iff.
  intros (p & <- & Hp). apply List.filter_In in Hp as [Hp _]. now exists p.
Qed.

Lemma compare_loop_aligned (tos : list (Z * Z)) target pairs n :
  Forall2 (fun to it => exists t, it = IPair (fst to) t) tos target ->
  (forall to, to ∈ tos -> exists k, fst to = Z.of_nat k /\ (k < length pairs)%nat) ->
  exists pairs',
    compare_loop (py_zip tos target) pairs n
    = Ok (pairs', n + Z.of_nat (length (List.filter differs (py_zip tos target)))).
Proof.
  intros Hal. revert pairs n.
  induction Hal as [|[i1 t1] it tos target [t2 ->] _ IH]; intros pairs n Hrange.
  - cbn. eexists. do 2 f_equal. lia.
  - destruct (Hrange (i1, t1)) as (k & Hk & Hlt); [left|]. cbn [fst] in Hk. subst i1.
    cbn [py_zip compare_loop unpack_pair obind fst List.filter].
    rewrite Z.eqb_refl. unfold differs at 1 3. cbn [fst snd].
    destruct (negb (t1 =? t2)); rewrite py_setattr_at_nat by exact Hlt; cbn [obind].
    + destruct (IH (alter (set_same_outcome false) k pairs) (n + 1)) as [ps' ->].
      { intros to Hto. rewrite length_alter. apply Hrange. now right. }
      eexists. do 2 f_equal. cbn [length]. lia.
    + destruct (IH (alter (set_same_outcome true) k pairs) n) as [ps' ->].
      { intros to Hto. rewrite length_alter. apply Hrange. now right. }
      eexists. reflexivity.
Qed.

Lemma aligned_outcomes (tos : list (Z * Z)) target :
  aligned (map fst tos) target ->
  Forall2 (fun to it => exists t, it = IPair (fst to) t) tos target.
Proof.
  unfold aligned. revert target. induction tos as [|to tos IH]; intros target H;
    inversion H; subst; constructor; auto.
Qed.

Lemma py_truediv_pos n k : 1 <= k -> py_truediv n k = Ok (Qmake n (Z.to_pos k)).
Proof.
  intros Hk. unfold py_truediv. destruct (Z.eqb_spec k 0); [lia|].
  now rewrite Z.sgn_pos, Z.mul_1_r, Z.abs_eq by lia.
Qed.

(** The run of [estimate_error_rate] against an aligned reply. *)
Lemma estimate_error_rate_aligned rs pairs k hdr target rest out :
  1 <= k -> indexed pairs ->
  aligned (test_indices_of rs pairs k) target ->
  let T := test_indices_of rs pairs k in
  exists pairs' tos,
    collect_outcomes (mark_tests T pairs) T = Ok tos
    /\ compare_loop (py_zip tos target) (mark_tests T pairs) 0
       = Ok (pairs', mismatches tos target)
    /\ estimate_error_rate rs pairs k (mkSocket (Structured hdr target :: rest) out)
       = (Ok (pairs', Qmake (mismatches tos target) (Z.to_pos k)),
          mkSocket rest
            (out ++ [Structured "Test indices" (map IInt T)]
                 ++ [Structured "Test outcomes" (map pack_pair tos)])).
Proof.
  intros Hk Hidx Hal T.
  assert (HT : forall i, i ∈ T ->
                 exists j, i = Z.of_nat j /\ (j < length (mark_tests T pairs))%nat).
  { intros i Hi. rewrite length_mark_tests. apply indexed_position; [exact Hidx|].
    apply matched_is_index. eapply test_indices_matched. exact Hi. }
  destruct (collect_outcomes_ok _ _ HT) as [tos Htos].
  pose proof (collect_outcomes_fst _ _ _ Htos) as Hfst.
  destruct (compare_loop_aligned tos target (mark_tests T pairs) 0) as [pairs' Hloop].
  { apply aligned_outcomes. now rewrite Hfst. }
  { intros to Hto. apply HT. rewrite <- Hfst.
    apply list_elem_of_In, in_map, list_elem_of_In, Hto. }
  exists pairs', tos. split; [exact Htos|]. split; [exact Hloop|].
  unfold estimate_error_rate, bind, lift, ret, send_structured, send,
    recv_structured_payload, bind, recv, lift, ret.
  rewrite random_sample_ok by lia. fold T. rewrite Htos. cbn [inbox outbox].
  rewrite Hloop. cbn [Z.add] in *. rewrite py_truediv_pos by exact Hk.
  rewrite <- app_assoc. reflexivity.
Qed.

Lemma sample_draw_nil rs k : sample_draw rs [] k = [].
Proof. now destruct k. Qed.

(** C2 (as amended).  For a test-sample size [k >= 1], a pair sequence
    whose indices are the positions and a peer reply aligned with the
    sampled indices, [estimate_error_rate] returns and the error rate is
    [error_count / k], [error_count] counting the compared positions whose
    outcomes differ; with an empty matched-basis pool nothing is compared
    and the rate is [0 / k]. *)
Theorem estimate_error_rate_quotient
    (rs : list nat) (pairs_info : list PairInfo) (k : Z)
    (header : string) (target : list item) (rest out : list message) :
  1 <= k ->
  indexed pairs_info ->
  aligned (test_indices_of rs pairs_info k) target ->
  let T := test_indices_of rs pairs_info k in
  exists pairs' test_outcomes,
    collect_outcomes (mark_tests T pairs_info) T = Ok test_outcomes
    /\ estimate_error_rate rs pairs_info k
         (mkSocket (Structured header target :: rest) out)
       = (Ok (pairs', Qmake (mismatches test_outcomes target) (Z.to_pos k)),
          mkSocket rest
            (out ++ [Structured "Test indices" (map IInt T)]
                 ++ [Structured "Test outcomes" (map pack_pair test_outcomes)]))
    /\ (same_basis_indices pairs_info = [] -> mismatches test_outcomes target = 0).
Proof.
  intros Hk Hidx Hal T.
  destruct (estimate_error_rate_aligned rs pairs_info k header target rest out Hk Hidx Hal)
    as (pairs' & tos & Htos & _ & Hrun).
  exists pairs', tos. split; [exact Htos|]. split; [exact Hrun|].
  intros Hpool. subst T.
  assert (HT : test_indices_of rs pairs_info k = []).
  { unfold test_indices_of. rewrite Hpool. apply sample_draw_nil. }
  rewrite HT in Htos. cbn in Htos. injection Htos as <-. reflexivity.
Qed.

Lemma estimate_error_rate_quotient_witness :
  exists pairs',
    estimate_error_rate [0%nat; 0%nat]
      [mkPair 0 0 1 (Some true) None None;
       mkPair 1 1 0 (Some true) None None;
       mkPair 2 0 1 (Some false) None None] 2
      (mkSocket [Structured "Test outcomes" [IPair 0 1; IPair 1 1]] [])
    = (Ok (pairs', 1 # 2),
       mkSocket [] [Structured "Test indices" [IInt 0; IInt 1];
                    Structured "Test outcomes" [IPair 0 1; IPair 1 0]]).
Proof.
  destruct (estimate_error_rate_quotient [0%nat; 0%nat]
              [mkPair 0 0 1 (Some true) None None;
               mkPair 1 1 0 (Some true) None None;
               mkPair 2 0 1 (Some false) None None] 2
              "Test outcomes" [IPair 0 1; IPair 1 1] [] [])
    as (pairs' & tos & Htos & Hrun & _).
  - lia.
  - intros [|[|[|k]]] p; cbn; intros [= <-]; reflexivity.
  - repeat constructor; eexists; reflexivity.
  - injection Htos as <-. exists pairs'. exact Hrun.
Defined.

(** C2 as first stated fails twice.  With [k = 0] the final division
    raises [ZeroDivisionError]; with an empty matched-basis pool and
    [k = 1] the rate returned is 0, not 1. *)
Lemma estimate_error_rate_no_fallback :
  (estimate_error_rate [] [mkPair 0 0 1 (Some true) None None] 0
     (mkSocket [Structured "Test outcomes" []] [])).1
  = Raise ZeroDivisionError
  /\ (estimate_error_rate [] [mkPair 0 0 1 (Some false) None None] 1
        (mkSocket [Structured "Test outcomes" []] [])).1
     = Ok ([mkPair 0 0 1 (Some false) (Some false) None], 0 # 1).
Proof. split; reflexivity. Qed.

(** ** [main]: the sentinel gate *)

Lemma filter_bases_inv pairs sock pairs' sock' :
  filter_bases pairs sock = (Ok pairs', sock') ->
  exists hdr remote rest,
    inbox sock = Structured hdr remote :: rest
    /\ filter_bases_loop (py_zip (local_bases pairs) remote) pairs = Ok pairs'
    /\ sock' = mkSocket rest
                 (outbox sock ++ [Structured "Bases" (map pack_pair (local_bases pairs))]).
Proof.
  unfold filter_bases, bind, lift, ret, send_structured, send,
    recv_structured_payload, bind, recv, lift, ret.
  cbn [inbox outbox].
  destruct (inbox sock) as [|[s|hdr remote] rest] eqn:Hin; try discriminate.
  destruct (filter_bases_loop _ _) as [ps| |] eqn:Hloop; try discriminate.
  intros [= <- <-]. now exists hdr, remote, rest.
Qed.

Lemma main_inv bit_flips basis_flips rs num_bits key_length sock rep sock' :
  main bit_flips basis_flips rs num_bits key_length sock = (Ok rep, sock') ->
  exists pairs0 rest pairs1 sock1 pairs2 rate,
    make_pairs bit_flips basis_flips (py_range num_bits) = Ok pairs0
    /\ inbox sock = Text ALL_MEASURED :: rest
    /\ filter_bases pairs0 (mkSocket rest (outbox sock)) = (Ok pairs1, sock1)
    /\ estimate_error_rate rs pairs1 (num_test_bits_of num_bits) sock1
       = (Ok (pairs2, rate), sock')
    /\ report_of pairs2 num_bits key_length = Ok rep.
Proof.
  unfold main, bind at 1, lift at 1.
  destruct (make_pairs _ _ _) as [pairs0| |] eqn:H0; try discriminate.
  unfold bind at 1, recv.
  destruct (inbox sock) as [|[s|hdr p] rest] eqn:Hin; try discriminate.
  destruct (String.eqb_spec s ALL_MEASURED) as [->|]; [|discriminate].
  unfold bind at 1.
  destruct (filter_bases pairs0 _) as [[pairs1| |] sock1] eqn:H1; try discriminate.
  unfold bind at 1.
  destruct (estimate_error_rate rs pairs1 _ sock1) as [[[pairs2 rate]| |] sock2] eqn:H2;
    try discriminate.
  unfold lift.
  destruct (report_of pairs2 num_bits key_length) as [r| |] eqn:H3; try discriminate.
  intros [= <- <-]. now exists pairs0, rest, pairs1, sock1, pairs2, rate.
Qed.

(** C6 (as amended).  After the pairs are built and before basis
    reconciliation Alice reads one message and goes on only if it is the
    sentinel ["All qubits measured"]: any other message raises
    [RuntimeError] with nothing sent.  The sentinel comes from the peer:
    over a whole run Alice sends the three structured messages
    ["Bases"], ["Test indices"] and ["Test outcomes"] and nothing else. *)
Theorem sentinel_gate
    (bit_flips basis_flips : list Z) (rs : list nat) (num_bits key_length : Z)
    (sock : Socket) :
  (forall pairs0 m rest,
      make_pairs bit_flips basis_flips (py_range num_bits) = Ok pairs0 ->
      inbox sock = m :: rest ->
      m <> Text ALL_MEASURED ->
      main bit_flips basis_flips rs num_bits key_length sock
      = (Raise RuntimeError, mkSocket rest (outbox sock)))
  /\ (forall rep sock',
        main bit_flips basis_flips rs num_bits key_length sock = (Ok rep, sock') ->
        (exists rest, inbox sock = Text ALL_MEASURED :: rest)
        /\ (exists bases indices outcomes,
              outbox sock'
              = outbox sock ++ [Structured "Bases" bases;
                                Structured "Test indices" indices;
                                Structured "Test outcomes" outcomes])).
Proof.
  split.
  - intros pairs0 m rest H0 Hin Hm. unfold main, bind at 1, lift at 1.
    rewrite H0. unfold bind at 1, recv. rewrite Hin.
    destruct m as [s|hdr p]; [|reflexivity].
    destruct (String.eqb_spec s ALL_MEASURED) as [->|]; [congruence | reflexivity].
  - intros rep sock' Hrun.
    destruct (main_inv _ _ _ _ _ _ _ _ Hrun)
      as (pairs0 & rest & pairs1 & sock1 & pairs2 & rate & _ & Hin & H1 & H2 & _).
    split; [now exists rest|].
    destruct (filter_bases_inv _ _ _ _ H1) as (hdr & remote & rest1 & _ & _ & ->).
    destruct (estimate_error_rate_inv _ _ _ _ _ _ _ H2)
      as (tos & hdr2 & target & rest2 & ne & _ & _ & _ & _ & ->).
    cbn [outbox]. eexists _, _, _. rewrite <- !app_assoc. reflexivity.
Qed.

Lemma sentinel_gate_witness :
  main demo_outcomes demo_basis [2%nat; 0%nat] 8 16
    (mkSocket [Text "Hello"; Text ALL_MEASURED] [])
  = (Raise RuntimeError, mkSocket [Text ALL_MEASURED] []).
Proof.
  eapply (proj1 (sentinel_gate demo_outcomes demo_basis [2%nat; 0%nat] 8 16
                   (mkSocket [Text "Hello"; Text ALL_MEASURED] []))).
  - reflexivity.
  - reflexivity.
  - discriminate.
Defined.

(** C6 as first stated fails: Alice does not emit the sentinel.  In the
    end-to-end scenario she completes the run and the sentinel is not
    among the messages she sent. *)
Lemma alice_does_not_emit_sentinel :
  (exists rep,
      (main demo_outcomes demo_basis [2%nat; 0%nat] 8 16 demo_socket).1 = Ok rep)
  /\ outbox (main demo_outcomes demo_basis [2%nat; 0%nat] 8 16 demo_socket).2
     = [Structured "Bases" [IPair 0 0; IPair 1 0; IPair 2 1; IPair 3 1;
                            IPair 4 0; IPair 5 1; IPair 6 0; IPair 7 1];
        Structured "Test indices" [IInt 4; IInt 0];
        Structured "Test outcomes" [IPair 4 1; IPair 0 0]]
  /\ ~ In (Text ALL_MEASURED)
         (outbox (main demo_outcomes demo_basis [2%nat; 0%nat] 8 16 demo_socket).2).
Proof.
  assert (Hout : outbox (main demo_outcomes demo_basis [2%nat; 0%nat] 8 16 demo_socket).2
                 = [Structured "Bases" [IPair 0 0; IPair 1 0; IPair 2 1; IPair 3 1;
                                        IPair 4 0; IPair 5 1; IPair 6 0; IPair 7 1];
                    Structured "Test indices" [IInt 4; IInt 0];
                    Structured "Test outcomes" [IPair 4 1; IPair 0 0]])
    by (vm_compute; reflexivity).
  split; [eexists; lazy; reflexivity|]. split; [exact Hout|].
  rewrite Hout. cbn [In]. intros [H|[H|[H|[]]]]; discriminate H.
Qed.

(** ** [main]: the reported key-rate potential *)

Lemma main_report bit_flips basis_flips rs num_bits key_length sock rep sock' :
  main bit_flips basis_flips rs num_bits key_length sock = (Ok rep, sock') ->
  exists pairs, report_of pairs num_bits key_length = Ok rep.
Proof.
  intros Hrun.
  destruct (main_inv _ _ _ _ _ _ _ _ Hrun)
    as (_ & _ & _ & _ & pairs2 & _ & _ & _ & _ & _ & H3).
  now exists pairs2.
Qed.

(** C5.  The reported key-rate potential is [1 - 2 * h qber], with [h]
    the binary entropy ([h 0 = h 1 = 0], the entropy formula elsewhere);
    it is 1 at [qber = 0], at most 1 for every [qber] in [0, 1], and it is
    reported as it comes out, negative included: at [qber = 1/2] it is -1. *)
Theorem key_rate_is_entropy_bound :
  (forall bit_flips basis_flips rs num_bits key_length sock rep sock',
      main bit_flips basis_flips rs num_bits key_length sock = (Ok rep, sock') ->
      key_rate_potential rep = (1 - 2 * h (Q2R (qber rep)))%R)
  /\ h 0 = 0%R /\ h 1 = 0%R
  /\ (forall p : R, p <> 0%R -> p <> 1%R ->
        h p = (- p * log2 p - (1 - p) * log2 (1 - p))%R)
  /\ (forall q : Q, (q == 0)%Q -> key_rate_of q = 1%R)
  /\ (forall q : Q, (0 <= q <= 1)%Q -> (key_rate_of q <= 1)%R)
  /\ key_rate_of (1 # 2) = (-1)%R.
Proof.
  split; [|split; [|split; [|split; [|split; [|split]]]]].
  - intros bit_flips basis_flips rs num_bits key_length sock rep sock' Hrun.
    destruct (main_report _ _ _ _ _ _ _ _ Hrun) as [pairs Hrep].
    now destruct (report_of_inv _ _ _ _ Hrep) as (_ & _ & _ & _ & -> & _).
  - exact h_0.
  - exact h_1.
  - exact h_inside.
  - intros q Hq. unfold key_rate_of.
    rewrite (Qeq_eqR _ _ Hq), RMicromega.Q2R_0, h_0. lra.
  - exact key_rate_of_le_1.
  - unfold key_rate_of.
    replace (Q2R (1 # 2)) with (/ 2)%R by (unfold Q2R; cbn; lra).
    rewrite h_half. lra.
Qed.

Lemma key_rate_is_entropy_bound_witness : (key_rate_of (1 # 4) <= 1)%R.
Proof.
  apply (proj1 (proj2 (proj2 (proj2 (proj2 (proj2 key_rate_is_entropy_bound)))))).
  split; discriminate.
Defined.

(** C8.  When no outcome was compared the report carries [qber = 1], and
    with it a key-rate potential of [1 - 2 * h 1 = 1], the largest value
    the potential takes on [0, 1]. *)
Theorem no_comparison_reports_top_rate
    (bit_flips basis_flips : list Z) (rs : list nat) (num_bits key_length : Z)
    (sock sock' : Socket) (rep : Report) :
  main bit_flips basis_flips rs num_bits key_length sock = (Ok rep, sock') ->
  outcome_comparison_count rep = 0 ->
  qber rep = 1%Q
  /\ key_rate_potential rep = (1 - 2 * h 1)%R
  /\ key_rate_potential rep = 1%R
  /\ (forall q : Q, (0 <= q <= 1)%Q -> (key_rate_of q <= key_rate_potential rep)%R).
Proof.
  intros Hrun Hocc.
  destruct (main_report _ _ _ _ _ _ _ _ Hrun) as [pairs Hrep].
  destruct (report_of_inv _ _ _ _ Hrep) as (_ & _ & _ & Hq & Hk & _).
  rewrite Hocc in Hq. unfold qber_of in Hq. cbn [Z.eqb] in Hq.
  injection Hq as Hq. rewrite Hk, <- Hq.
  assert (H1 : key_rate_of 1 = 1%R) by (apply key_rate_of_1; reflexivity).
  split; [reflexivity|]. split; [|split].
  - unfold key_rate_of. now rewrite RMicromega.Q2R_1.
  - exact H1.
  - intros q Hq01. rewrite H1. now apply key_rate_of_le_1.
Qed.

Lemma no_comparison_reports_top_rate_witness :
  exists rep sock',
    main [1; 0] [0; 0] [] 2 16
      (mkSocket [Text ALL_MEASURED;
                 Structured "Bases" (bases_payload [1; 1]);
                 Structured "Test outcomes" []] [])
    = (Ok rep, sock')
    /\ outcome_comparison_count rep = 0
    /\ qber rep = 1%Q
    /\ key_rate_potential rep = 1%R.
Proof.
  eexists. eexists. split; [lazy; reflexivity|]. split; [reflexivity|].
  destruct (no_comparison_reports_top_rate [1; 0] [0; 0] [] 2 16
              (mkSocket [Text ALL_MEASURED;
                         Structured "Bases" (bases_payload [1; 1]);
                         Structured "Test outcomes" []] [])
              _ _ eq_refl eq_refl)
    as (Hq & _ & Hk & _).
  split; [exact Hq | exact Hk].
Defined.

(** ** [main]: the reported QBER *)

Lemma make_pairs_index bit_flips basis_flips range pairs :
  make_pairs bit_flips basis_flips range = Ok pairs -> map index pairs = range.
Proof.
  revert pairs. induction range as [|i range IH]; intros pairs; cbn [make_pairs].
  - now intros [= <-].
  - destruct (py_getitem basis_flips i); cbn [obind]; try discriminate.
    destruct (py_getitem bit_flips i); cbn [obind]; try discriminate.
    destruct (make_pairs bit_flips basis_flips range); cbn [obind]; try discriminate.
    intros [= <-]. cbn. now rewrite (IH _ eq_refl).
Qed.

Lemma indexed_of_index_map pairs :
  map index pairs = map Z.of_nat (seq 0 (length pairs)) -> indexed pairs.
Proof.
  intros Hmap k p Hp.
  assert (Hk : map index pairs !! k = Some (index p)) by now rewrite lookup_map, Hp.
  rewrite Hmap, lookup_map, lookup_seq_lt in Hk
    by (eapply lookup_lt_Some; exact Hp).
  cbn in Hk. now injection Hk as <-.
Qed.

Lemma index_map_of_indexed pairs :
  indexed pairs -> map index pairs = map Z.of_nat (seq 0 (length pairs)).
Proof.
  intros Hidx. apply list_eq. intros k. rewrite !lookup_map.
  destruct (pairs !! k) as [p|] eqn:Hp; cbn.
  - rewrite lookup_seq_lt by (eapply lookup_lt_Some; exact Hp). cbn.
    now rewrite (Hidx k p Hp).
  - apply lookup_ge_None in Hp. now rewrite lookup_seq_ge.
Qed.

Lemma indexed_same_index pairs pairs' :
  map index pairs' = map index pairs -> indexed pairs -> indexed pairs'.
Proof.
  intros Hmap Hidx. apply indexed_of_index_map.
  rewrite Hmap, (index_map_of_indexed _ Hidx).
  now rewrite <- (length_map index pairs'), Hmap, length_map.
Qed.

Lemma make_pairs_indexed bit_flips basis_flips num_bits pairs :
  make_pairs bit_flips basis_flips (py_range num_bits) = Ok pairs -> indexed pairs.
Proof.
  intros H. apply make_pairs_index in H. apply indexed_of_index_map.
  rewrite H. unfold py_range. f_equal. f_equal.
  rewrite <- (length_map index pairs), H. unfold py_range.
  now rewrite length_map, length_seq.
Qed.

Lemma filter_bases_loop_index zs pairs pairs' :
  filter_bases_loop zs pairs = Ok pairs' -> map index pairs' = map index pairs.
Proof.
  revert pairs. induction zs as [|[[i b] it] zs IH]; intros pairs;
    cbn [filter_bases_loop].
  - now intros [= <-].
  - destruct it as [z|ri rb]; cbn [unpack_pair obind]; [discriminate|].
    destruct (i =? ri); [|discriminate].
    unfold py_setattr_at. destruct (py_norm_index _ _); [|discriminate].
    cbn [obind]. intros Hloop. rewrite (IH _ Hloop).
    now apply map_alter_same.
Qed.

Lemma map_index_mark_tests T pairs : map index (mark_tests T pairs) = map index pairs.
Proof. unfold mark_tests. rewrite map_map. reflexivity. Qed.

(** After error estimation on an indexed list every tested pair is a
    matched one. *)
Lemma tested_are_matched rs pairs k pairs' :
  indexed pairs ->
  map core pairs' = map core (mark_tests (test_indices_of rs pairs k) pairs) ->
  Forall (fun p' => truthy (test_outcome p') = true -> truthy (same_basis p') = true)
         pairs'.
Proof.
  intros Hidx Hcore. apply Forall_lookup. intros j p' Hp' Ht.
  assert (Hj : map core pairs' !! j = Some (core p')) by now rewrite lookup_map, Hp'.
  rewrite Hcore, lookup_map, lookup_mark_tests in Hj.
  destruct (pairs !! j) as [p|] eqn:Hp; [|discriminate]. cbn in Hj.
  injection Hj as _ _ _ Hsb Hto. rewrite <- Hsb. rewrite <- Hto in Ht. cbn in Ht.
  destruct (bool_decide (index p ∈ test_indices_of rs pairs k)) eqn:Hin;
    [|discriminate].
  apply bool_decide_eq_true, test_indices_matched in Hin.
  unfold same_basis_indices in Hin.
  apply list_elem_of_In, in_map_iff in Hin as (q & Hq & Hqin).
  apply List.filter_In in Hqin as [Hqin Hqsb].
  apply list_elem_of_In, list_elem_of_lookup in Hqin as [j' Hj'].
  pose proof (Hidx _ _ Hj') as E1. pose proof (Hidx _ _ Hp) as E2.
  assert (j' = j) by lia. subst j'. rewrite Hp in Hj'. now injection Hj' as ->.
Qed.

Lemma sum_flags_inv l z : sum_flags l = Ok z -> z = count_true l.
Proof.
  revert z. induction l as [|[b|] l IH]; intros z; cbn [sum_flags].
  - now intros [= <-].
  - destruct (sum_flags l) as [s| |]; cbn [obind]; try discriminate.
    intros [= <-]. rewrite (IH s eq_refl). unfold count_true.
    destruct b; cbn [List.filter truthy length Z.b2z]; lia.
  - discriminate.
Qed.

Lemma count_true_test_outcome pairs :
  count_true (map test_outcome pairs)
  = Z.of_nat (length (List.filter (fun p => truthy (test_outcome p)) pairs)).
Proof.
  unfold count_true. f_equal.
  induction pairs as [|p ps IH]; [reflexivity|].
  cbn [map List.filter]. destruct (truthy (test_outcome p)); cbn [length]; now rewrite IH.
Qed.

Lemma filter_tested_matched pairs :
  Forall (fun p => truthy (test_outcome p) = true -> truthy (same_basis p) = true) pairs ->
  List.filter (fun p => truthy (test_outcome p))
    (List.filter (fun p => truthy (same_basis p)) pairs)
  = List.filter (fun p => truthy (test_outcome p)) pairs.
Proof.
  induction 1 as [|p ps Hp _ IH]; [reflexivity|].
  cbn [List.filter].
  destruct (truthy (same_basis p)) eqn:Hsb; cbn [List.filter].
  - destruct (truthy (test_outcome p)); now rewrite IH.
  - destruct (truthy (test_outcome p)); [now specialize (Hp eq_refl) | exact IH].
Qed.

Lemma qber_of_bounds diff occ q :
  0 <= diff <= occ -> qber_of diff occ = Ok q ->
  (0 <= q <= 1)%Q /\ (occ = 0 -> q = 1%Q).
Proof.
  intros Hd. unfold qber_of. destruct (Z.eqb_spec occ 0) as [->|Hne].
  - intros [= <-]. repeat split; discriminate.
  - rewrite py_truediv_pos by lia. intros [= <-].
    split; [|lia]. unfold Qle. cbn [Qnum Qden]. rewrite Z2Pos.id by lia. lia.
Qed.

(** Whatever the peer sent, a report that comes back carries a QBER
    within [0, 1]. *)
Lemma main_qber_bounds bit_flips basis_flips rs num_bits key_length sock rep sock' :
  main bit_flips basis_flips rs num_bits key_length sock = (Ok rep, sock') ->
  (0 <= qber rep <= 1)%Q /\ (outcome_comparison_count rep = 0 -> qber rep = 1%Q).
Proof.
  intros Hrun.
  destruct (main_inv _ _ _ _ _ _ _ _ Hrun)
    as (pairs0 & rest & pairs1 & sock1 & pairs2 & rate & H0 & _ & H1 & H2 & H3).
  destruct (filter_bases_inv _ _ _ _ H1) as (hdr & remote & rest1 & _ & Hfb & _).
  assert (Hidx : indexed pairs1).
  { eapply indexed_same_index; [eapply filter_bases_loop_index; exact Hfb|].
    eapply make_pairs_indexed; exact H0. }
  destruct (estimate_error_rate_inv _ _ _ _ _ _ _ H2)
    as (tos & hdr2 & target & rest2 & ne & _ & _ & Hloop & _).
  destruct (compare_loop_core _ _ _ _ _ Hloop) as (Hcore & _ & _).
  pose proof (tested_are_matched _ _ _ _ Hidx Hcore) as Htm.
  destruct (report_of_inv _ _ _ _ H3)
    as (_ & Hocc & (same & Hsame & Hdiff) & Hq & _).
  unfold count_compared in Hocc. unfold count_same_outcome in Hsame.
  apply sum_flags_inv in Hocc, Hsame.
  rewrite count_true_test_outcome, (filter_tested_matched _ Htm) in Hocc.
  pose proof (count_true_bounds
                (map same_outcome
                   (List.filter (fun p => truthy (test_outcome p)) pairs2))) as Hb.
  rewrite length_map in Hb.
  apply (qber_of_bounds (diff_outcome_count rep) (outcome_comparison_count rep));
    [lia | exact Hq].
Qed.

Lemma length_py_zip {A B} (l : list A) (r : list B) :
  length l = length r -> length (py_zip l r) = length l.
Proof.
  revert r. induction l as [|a l IH]; intros [|b r]; cbn; try discriminate;
    [reflexivity|].
  intros [= H]. now rewrite IH.
Qed.

Lemma make_pairs_from preb pre sufb suf :
  length preb = length pre -> length sufb = length suf ->
  make_pairs (preb ++ sufb) (pre ++ suf)
    (map Z.of_nat (seq (length pre) (length suf)))
  = Ok (map (fun ibo => mkPair (fst ibo) (fst (snd ibo)) (snd (snd ibo))
                               None None None)
            (enumerate_from (Z.of_nat (length pre)) (py_zip suf sufb))).
Proof.
  revert pre preb sufb. induction suf as [|b suf IH]; intros pre preb sufb Hpre Hsuf.
  - reflexivity.
  - destruct sufb as [|o sufb]; [discriminate|]. injection Hsuf as Hsuf.
    cbn [length seq map make_pairs py_zip enumerate_from].
    rewrite (py_getitem_nat (pre ++ b :: suf) (length pre) b)
      by apply list_lookup_middle, eq_refl.
    rewrite (py_getitem_nat (preb ++ o :: sufb) (length pre) o)
      by (apply list_lookup_middle; lia).
    cbn [obind fst snd].
    specialize (IH (pre ++ [b]) (preb ++ [o]) sufb).
    rewrite !length_app in IH. cbn [length] in IH.
    rewrite <- !app_assoc in IH. cbn [app] in IH.
    replace (length pre + 1)%nat with (S (length pre)) in IH by lia.
    rewrite IH by lia. cbn [obind].
    replace (Z.of_nat (S (length pre))) with (Z.of_nat (length pre) + 1) by lia.
    reflexivity.
Qed.

Lemma make_pairs_ok bit_flips basis_flips num_bits :
  Z.of_nat (length bit_flips) = num_bits ->
  Z.of_nat (length basis_flips) = num_bits ->
  make_pairs bit_flips basis_flips (py_range num_bits)
  = Ok (initial_pairs bit_flips basis_flips).
Proof.
  intros Hb Hs. unfold py_range, initial_pairs, enumerate.
  rewrite <- Hs, Nat2Z.id.
  exact (make_pairs_from [] [] bit_flips basis_flips eq_refl ltac:(lia)).
Qed.

Lemma length_initial_pairs bit_flips basis_flips :
  length bit_flips = length basis_flips ->
  length (initial_pairs bit_flips basis_flips) = length basis_flips.
Proof.
  intros H. unfold initial_pairs, enumerate.
  now rewrite length_map, length_enumerate_from, length_py_zip.
Qed.

Lemma py_norm_index_nat_inv n k k1 :
  py_norm_index n (Z.of_nat k) = Some k1 -> k1 = k.
Proof.
  unfold py_norm_index.
  destruct (Z.leb_spec 0 (Z.of_nat k)); [|lia].
  destruct (Z.ltb_spec (Z.of_nat k) (Z.of_nat n)); cbn.
  - intros [= <-]. apply Nat2Z.id.
  - destruct (Z.ltb_spec (Z.of_nat k) 0); [lia|]. discriminate.
Qed.

(** The positions the comparison loop went through hold a verdict. *)
Lemma compare_loop_sets zs pairs n pairs' n' :
  compare_loop zs pairs n = Ok (pairs', n') ->
  forall k p',
    pairs' !! k = Some p' ->
    (Z.of_nat k ∈ map (fun z : Z * Z * item => fst (fst z)) zs
     \/ exists p, pairs !! k = Some p /\ is_Some (same_outcome p)) ->
    is_Some (same_outcome p').
Proof.
  revert pairs n. induction zs as [|[[i1 t1] it] zs IH]; intros pairs n;
    cbn [compare_loop].
  - intros [= <- <-] k p' Hp' [Hin|(p & Hp & Hs)]; [inversion Hin|].
    rewrite Hp' in Hp. now injection Hp as <-.
  - destruct it as [z|i2 t2]; cbn [unpack_pair obind]; [discriminate|].
    destruct (i1 =? i2); [|discriminate].
    assert (Hstep : forall b ps1,
               py_setattr_at pairs i1 (set_same_outcome b) = Ok ps1 ->
               forall m, compare_loop zs ps1 m = Ok (pairs', n') ->
               forall k p', pairs' !! k = Some p' ->
                 (Z.of_nat k ∈ map (fun z : Z * Z * item => fst (fst z))
                                   (((i1, t1), IPair i2 t2) :: zs)
                  \/ exists p, pairs !! k = Some p /\ is_Some (same_outcome p)) ->
                 is_Some (same_outcome p')).
    { intros b ps1 Hset m Hloop k p' Hp' Hor.
      destruct (compare_loop_core _ _ _ _ _ Hloop) as (_ & Hlen & _).
      pose proof (py_setattr_at_length _ _ _ _ Hset) as Hlen1.
      unfold py_setattr_at in Hset.
      destruct (py_norm_index (length pairs) i1) as [k1|] eqn:Hk1; [|discriminate].
      injection Hset as <-.
      destruct (lookup_lt_is_Some_2 pairs k) as [p Hp];
        [rewrite <- Hlen1, <- Hlen; eapply lookup_lt_Some; exact Hp'|].
      apply (IH _ _ Hloop k p' Hp').
      cbn [map fst] in Hor. rewrite elem_of_cons in Hor.
      destruct Hor as [[Hk|Hin]|(q & Hq & Hs)].
      - right. subst i1. apply py_norm_index_nat_inv in Hk1 as ->.
        exists (set_same_outcome b p).
        rewrite list_lookup_alter_eq, Hp. split; [reflexivity | now eexists].
      - now left.
      - right. rewrite Hp in Hq. injection Hq as <-.
        destruct (decide (k1 = k)) as [->|Hne].
        + exists (set_same_outcome b p).
          rewrite list_lookup_alter_eq, Hp. split; [reflexivity | now eexists].
        + exists p. rewrite list_lookup_alter_ne by exact Hne. now split. }
    destruct (negb (t1 =? t2));
      (destruct (py_setattr_at pairs i1 _) as [ps1| |] eqn:Hset; cbn [obind];
       try discriminate; intros Hloop; exact (Hstep _ _ Hset _ Hloop)).
Qed.

Lemma firsts_py_zip (tos : list (Z * Z)) (target : list item) :
  length tos = length target ->
  map (fun z : Z * Z * item => fst (fst z)) (py_zip tos target) = map fst tos.
Proof.
  revert target. induction tos as [|to tos IH]; intros [|it target]; cbn;
    try discriminate; [reflexivity|].
  intros [= H]. now rewrite IH.
Qed.

Lemma reconcile_index pairs peer : map index (reconcile pairs peer) = map index pairs.
Proof.
  revert peer. induction pairs as [|p ps IH]; intros [|b bs]; cbn; try reflexivity.
  now rewrite IH.
Qed.

Lemma reconcile_sets_all pairs peer :
  length peer = length pairs ->
  Forall (fun p => is_Some (same_basis p)) (reconcile pairs peer).
Proof.
  revert peer. induction pairs as [|p ps IH]; intros [|b bs]; cbn; try discriminate;
    [constructor|].
  intros [= H]. constructor; [now eexists | now apply IH].
Qed.

(** The list that comes out of an aligned error estimation is fully
    annotated when [same_basis] was set everywhere before. *)
Lemma estimate_annotates rs pairs k tos target pairs' n' :
  indexed pairs ->
  Forall (fun p => is_Some (same_basis p)) pairs ->
  let T := test_indices_of rs pairs k in
  collect_outcomes (mark_tests T pairs) T = Ok tos ->
  aligned T target ->
  compare_loop (py_zip tos target) (mark_tests T pairs) 0 = Ok (pairs', n') ->
  fully_annotated pairs'.
Proof.
  intros Hidx Hsb T Htos Hal Hloop.
  destruct (compare_loop_core _ _ _ _ _ Hloop) as (Hcore & Hlen & _).
  pose proof (collect_outcomes_fst _ _ _ Htos) as Hfst.
  assert (Hlens : length tos = length target).
  { rewrite <- (length_map fst tos), Hfst. eapply Forall2_length; exact Hal. }
  apply Forall_lookup. intros j p' Hp'.
  assert (Hj : map core pairs' !! j = Some (core p')) by now rewrite lookup_map, Hp'.
  rewrite Hcore, lookup_map, lookup_mark_tests in Hj.
  destruct (pairs !! j) as [p|] eqn:Hp; [|discriminate]. cbn in Hj.
  injection Hj as _ _ _ Hs Ht.
  split; [|split].
  - rewrite <- Hs. rewrite Forall_lookup in Hsb. exact (Hsb j p Hp).
  - rewrite <- Ht. now eexists.
  - intros Htrue. rewrite Htrue in Ht. injection Ht as Ht.
    apply bool_decide_eq_true in Ht. rewrite (Hidx j p Hp) in Ht.
    apply (compare_loop_sets _ _ _ _ _ Hloop j p' Hp'). left.
    now rewrite firsts_py_zip, Hfst.
Qed.

(** C3.  When the two lists of the simulator and the peer's basis list
    have [num_bits] elements, the peer starts with the sentinel and its
    test-outcome list is index-aligned with the sampled indices, the run
    returns a report whose [qber] lies in [0, 1], and [qber] is 1 whenever
    [outcome_comparison_count] is 0. *)
Theorem qber_in_unit_interval
    (bit_flips basis_flips peer_basis : list Z) (rs : list nat)
    (num_bits key_length : Z) (header1 header2 : string)
    (target : list item) (rest out : list message) :
  Z.of_nat (length bit_flips) = num_bits ->
  Z.of_nat (length basis_flips) = num_bits ->
  Z.of_nat (length peer_basis) = num_bits ->
  aligned (test_indices_of rs
             (reconcile (initial_pairs bit_flips basis_flips) peer_basis)
             (num_test_bits_of num_bits))
          target ->
  exists rep sock',
    main bit_flips basis_flips rs num_bits key_length
      (mkSocket (Text ALL_MEASURED
                   :: Structured header1 (bases_payload peer_basis)
                   :: Structured header2 target :: rest) out)
    = (Ok rep, sock')
    /\ (0 <= qber rep <= 1)%Q
    /\ (outcome_comparison_count rep = 0 -> qber rep = 1%Q).
Proof.
  intros Hbits Hbasis Hpeer Hal.
  set (pairs0 := initial_pairs bit_flips basis_flips) in *.
  set (pairs1 := reconcile pairs0 peer_basis) in *.
  set (k := num_test_bits_of num_bits) in *.
  assert (Hk : 1 <= k) by (unfold k, num_test_bits_of; lia).
  pose proof (make_pairs_ok _ _ _ Hbits Hbasis) as H0. fold pairs0 in H0.
  assert (Hlen0 : length pairs0 = length basis_flips)
    by (apply length_initial_pairs; lia).
  assert (Hidx : indexed pairs1).
  { eapply indexed_same_index; [apply reconcile_index|].
    eapply make_pairs_indexed; exact H0. }
  pose proof (filter_bases_run pairs0 peer_basis header1
                (Structured header2 target :: rest) out) as H1.
  fold pairs1 in H1.
  destruct (estimate_error_rate_aligned rs pairs1 k header2 target rest
              (out ++ [Structured "Bases" (map pack_pair (local_bases pairs0))])
              Hk Hidx Hal)
    as (pairs2 & tos & Htos & Hloop & H2).
  assert (Hann : fully_annotated pairs2).
  { eapply (estimate_annotates rs pairs1 k); try eassumption.
    apply reconcile_sets_all. lia. }
  destruct (report_of_annotated pairs2 num_bits key_length Hann) as (rep & H3 & _).
  assert (Hrun : main bit_flips basis_flips rs num_bits key_length
                   (mkSocket (Text ALL_MEASURED
                                :: Structured header1 (bases_payload peer_basis)
                                :: Structured header2 target :: rest) out)
                 = (Ok rep,
                    mkSocket rest
                      ((out ++ [Structured "Bases" (map pack_pair (local_bases pairs0))])
                         ++ [Structured "Test indices"
                               (map IInt (test_indices_of rs pairs1 k))]
                         ++ [Structured "Test outcomes" (map pack_pair tos)]))).
  { unfold main, bind at 1, lift at 1. rewrite H0.
    unfold bind at 1, recv. cbn [inbox outbox].
    rewrite String.eqb_refl. unfold bind at 1. rewrite H1.
    unfold bind at 1. fold k. rewrite H2. unfold lift. now rewrite H3. }
  eexists. eexists. split; [exact Hrun|].
  exact (main_qber_bounds _ _ _ _ _ _ _ _ Hrun).
Qed.

Lemma qber_in_unit_interval_witness :
  exists rep sock',
    main demo_outcomes demo_basis [2%nat; 0%nat] 8 16 demo_socket = (Ok rep, sock')
    /\ (0 <= qber rep <= 1)%Q
    /\ (outcome_comparison_count rep = 0 -> qber rep = 1%Q).
Proof.
  apply (qber_in_unit_interval demo_outcomes demo_basis demo_peer_basis
           [2%nat; 0%nat] 8 16 "Bases" "Test outcomes" [IPair 4 1; IPair 0 0] [] []).
  - reflexivity.
  - reflexivity.
  - reflexivity.
  - repeat constructor; eexists; reflexivity.
Defined.

(** ** [extract_key] *)

Lemma dot_zip_comm (x r : list Z) :
  sum_ints (map (fun xr => fst xr * snd xr) (py_zip x r))
  = sum_ints (map (fun xr => fst xr * snd xr) (py_zip r x)).
Proof.
  unfold sum_ints.
  revert r. induction x as [|a x IH]; intros [|b r]; cbn; try reflexivity.
  rewrite IH. lia.
Qed.

Lemma dot_zip_add (x y r : list Z) :
  length x = length y ->
  sum_ints (map (fun xr => fst xr * snd xr) (py_zip (zip_with Z.add x y) r))
  = sum_ints (map (fun xr => fst xr * snd xr) (py_zip x r))
    + sum_ints (map (fun xr => fst xr * snd xr) (py_zip y r)).
Proof.
  unfold sum_ints.
  revert y r. induction x as [|a x IH]; intros [|b y] [|c r]; cbn; try discriminate;
    try reflexivity.
  intros [= H]. rewrite (IH _ _ H). lia.
Qed.

Lemma py_zip_app_l {A B} (x x' : list A) (r : list B) :
  (length r <= length x)%nat -> py_zip (x ++ x') r = py_zip x r.
Proof.
  revert r. induction x as [|a x IH]; intros [|b r]; cbn; intros H; try reflexivity;
    try lia.
  - now destruct x'.
  - rewrite IH by lia. reflexivity.
Qed.

Lemma dot_zip_bits (x r : list Z) :
  Forall is_bit x -> Forall is_bit r ->
  sum_ints (map (fun xr => fst xr * snd xr) (py_zip x r))
  = Z.of_nat (length (List.filter (fun xr => (fst xr =? 1) && (snd xr =? 1))
                                  (py_zip x r))).
Proof.
  unfold sum_ints. intros Hx. revert r.
  induction Hx as [|a x Ha _ IH]; intros r Hr; [reflexivity|].
  destruct Hr as [|b r Hb Hr]; [reflexivity|].
  cbn [py_zip map foldr List.filter fst snd]. rewrite (IH r Hr).
  destruct Ha as [-> | ->], Hb as [-> | ->]; cbn [Z.eqb Pos.eqb andb length]; lia.
Qed.

(** X1.  Whatever integers the two lists hold, negative ones included,
    [extract_key] returns a bit; on two lists of bits it is the parity of
    the number of positions where both hold a 1. *)
Theorem extract_key_bit (x r : list Z) :
  (extract_key x r = 0 \/ extract_key x r = 1)
  /\ (Forall is_bit x -> Forall is_bit r ->
      extract_key x r
      = Z.of_nat (length (List.filter (fun xr => (fst xr =? 1) && (snd xr =? 1))
                                      (py_zip x r))) mod 2).
Proof.
  split.
  - unfold extract_key.
    pose proof (Z.mod_pos_bound
                  (sum_ints (map (fun xr => fst xr * snd xr) (py_zip x r))) 2).
    lia.
  - intros Hx Hr. unfold extract_key. now rewrite dot_zip_bits.
Qed.

Lemma extract_key_bit_witness :
  extract_key [1; 1; 0; 1] [1; 0; 1; 1]
  = Z.of_nat (length (List.filter (fun xr => (fst xr =? 1) && (snd xr =? 1))
                                  (py_zip [1; 1; 0; 1] [1; 0; 1; 1]))) mod 2.
Proof.
  apply (proj2 (extract_key_bit [1; 1; 0; 1] [1; 0; 1; 1]));
    repeat constructor; (now left) || (now right).
Defined.

(** X2.  [extract_key] is linear modulo 2 in its first argument: for two
    lists of the same length, the key of their element-wise sum is the sum
    modulo 2 of their keys. *)
Theorem extract_key_linear (x y r : list Z) :
  length x = length y ->
  extract_key (zip_with Z.add x y) r = (extract_key x r + extract_key y r) mod 2.
Proof.
  intros H. unfold extract_key. rewrite (dot_zip_add _ _ _ H).
  apply Z.add_mod. discriminate.
Qed.

Lemma extract_key_linear_witness :
  extract_key (zip_with Z.add [1; 0; 1] [1; 1; 0]) [1; 1; 1]
  = (extract_key [1; 0; 1] [1; 1; 1] + extract_key [1; 1; 0] [1; 1; 1]) mod 2.
Proof. apply extract_key_linear. reflexivity. Defined.

(** X3.  [extract_key] is symmetric in its two arguments, and a length
    mismatch is no error: the elements of the longer list that have no
    partner are ignored. *)
Theorem extract_key_symmetric_truncating (x r extra : list Z) :
  (length r <= length x)%nat ->
  extract_key x r = extract_key r x
  /\ extract_key (x ++ extra) r = extract_key x r
  /\ extract_key r (x ++ extra) = extract_key r x.
Proof.
  intros H. unfold extract_key. split; [|split].
  - now rewrite dot_zip_comm.
  - now rewrite py_zip_app_l.
  - now rewrite (dot_zip_comm r (x ++ extra)), py_zip_app_l, (dot_zip_comm x r).
Qed.

Lemma extract_key_symmetric_truncating_witness :
  extract_key ([1; 1] ++ [1; 1; 1]) [1; 0] = extract_key [1; 1] [1; 0].
Proof.
  apply (proj1 (proj2 (extract_key_symmetric_truncating [1; 1] [1; 0] [1; 1; 1]
                         ltac:(cbn; lia)))).
Defined.

(** ** The assured mode *)

Module AssuredFacts.

Import Framing FramingFacts Assured.
Local Open Scope string_scope.

Lemma recv_many_split n1 n2 c l c2 :
  recv_many (n1 + n2) c = (l, Ok tt, c2) ->
  exists c1,
    recv_many n1 c = (take n1 l, Ok tt, c1)
    /\ recv_many n2 c1 = (drop n1 l, Ok tt, c2).
Proof.
  revert c l. induction n1 as [|n1 IH]; intros c l H.
  - exists c. split; [reflexivity | exact H].
  - cbn [Nat.add recv_many] in H. cbn [recv_many].
    destruct (recv_single_msg c) as [[m| |] c']; try discriminate.
    destruct (recv_many (n1 + n2) c') as [[ms o] c''] eqn:Hrest.
    injection H as <- -> <-.
    destruct (IH _ _ Hrest) as (c1 & H1 & H2).
    exists c1. rewrite H1. split; [reflexivity | exact H2].
Qed.

(** Messages other than ["ACK"] are received and dropped. *)
Lemma await_skip n fuel c xs c1 :
  recv_many n c = (xs, Ok tt, c1) ->
  Forall (fun m => m <> "ACK") xs ->
  await_ack (n + fuel) c = await_ack fuel c1.
Proof.
  revert c xs. induction n as [|n IH]; intros c xs H Hxs.
  - cbn in H. now injection H as <- <-.
  - cbn [recv_many] in H. cbn [Nat.add await_ack].
    destruct (recv_single_msg c) as [[m| |] c']; try discriminate.
    destruct (recv_many n c') as [[ms o] c''] eqn:Hrest.
    injection H as <- -> <-.
    inversion Hxs as [|? ? Hm Hms]; subst.
    destruct (String.eqb_spec m "ACK"); [contradiction|].
    exact (IH _ _ Hrest Hms).
Qed.

Lemma recv_single_msg_wire c o c' :
  recv_single_msg c = (o, c') -> wire c' = wire c.
Proof.
  unfold recv_single_msg.
  destruct (buf_msgs c); [|now intros [= _ <-]].
  destruct (pending c); [now intros [= _ <-]|].
  destruct (removelast _); now intros [= _ <-].
Qed.

Lemma recv_many_wire n c xs o c' :
  recv_many n c = (xs, o, c') -> wire c' = wire c.
Proof.
  revert c xs o c'. induction n as [|n IH]; intros c xs o c'; cbn [recv_many].
  - now intros [= _ _ <-].
  - destruct (recv_single_msg c) as [[m|e|] c1] eqn:Hr;
      pose proof (recv_single_msg_wire _ _ _ Hr) as Hw;
      try (intros [= _ _ <-]; exact Hw).
    destruct (recv_many n c1) as [[ms o'] c2] eqn:Hm.
    intros [= _ _ <-]. now rewrite (IH _ _ _ _ Hm).
Qed.

Lemma recv_many_one c m c' :
  recv_many 1 c = ([m], Ok tt, c') -> recv_single_msg c = (Ok m, c').
Proof.
  cbn [recv_many]. destruct (recv_single_msg c) as [[x| |] c1]; try discriminate.
  now intros [= -> ->].
Qed.

Lemma length_split_from sep k cur s :
  (length (split_from sep k cur s) <= S (String.length s))%nat.
Proof.
  revert k cur. induction s as [|a s IH]; intros k cur; cbn [split_from String.length].
  - cbn. lia.
  - destruct k; [|specialize (IH k cur); lia].
    destruct (String.prefix sep (String a s)).
    + cbn [length]. specialize (IH (String.length sep - 1)%nat ""). lia.
    + specialize (IH 0%nat (cur ++ String a "")). lia.
Qed.

Lemma length_removelast {A} (l : list A) : length (removelast l) = (length l - 1)%nat.
Proof.
  induction l as [|x [|y l] IH]; [reflexivity | reflexivity |].
  change (removelast (x :: y :: l)) with (x :: removelast (y :: l)).
  cbn [length] in *. rewrite IH. lia.
Qed.

(** A receive that returns uses up part of the budget. *)
Lemma recv_spends c m c' :
  recv_single_msg c = (Ok m, c') -> (ack_budget c' < ack_budget c)%nat.
Proof.
  unfold recv_single_msg, ack_budget.
  destruct (buf_msgs c) as [|x rest] eqn:Hbuf.
  - destruct (pending c) as [|d later]; [discriminate|].
    pose proof (length_split_from EOF 0 "" d) as Hlen.
    pose proof (length_removelast (py_split EOF d)) as Hrl.
    unfold py_split in *.
    destruct (removelast (split_from EOF 0 "" d)) as [|y ys] eqn:Hmsgs; [discriminate|].
    intros [= <- <-]. cbn [buf_msgs pending app tail foldr length] in *. lia.
  - intros [= <- <-]. cbn [buf_msgs pending length]. lia.
Qed.

Lemma await_ack_total fuel c :
  (ack_budget c <= fuel)%nat ->
  exists c',
    await_ack fuel c = Some (Ok tt, c')
    \/ await_ack fuel c = Some (Blocked, c')
    \/ await_ack fuel c = Some (Raise IndexError, c').
Proof.
  revert c. induction fuel as [|fuel IH]; intros c Hb.
  - unfold ack_budget in Hb. lia.
  - cbn [await_ack].
    destruct (recv_single_msg c) as [[m|e|] c'] eqn:Hrecv.
    + destruct (String.eqb m "ACK"); [exists c'; now left|].
      apply IH. pose proof (recv_spends _ _ _ Hrecv). lia.
    + exists c'. right. right. f_equal. f_equal. f_equal.
      unfold recv_single_msg in Hrecv.
      destruct (buf_msgs c); [|discriminate].
      destruct (pending c); [discriminate|].
      destruct (removelast _); now inversion Hrecv.
    + exists c'. right. now left.
Qed.

Lemma await_ack_more_fuel fuel extra c r :
  await_ack fuel c = Some r -> await_ack (fuel + extra) c = Some r.
Proof.
  revert c. induction fuel as [|fuel IH]; intros c; [discriminate|].
  cbn [Nat.add await_ack].
  destruct (recv_single_msg c) as [[m|e|] c']; try (intros H; exact H).
  destruct (String.eqb m "ACK"); [intros H; exact H | apply IH].
Qed.

(** X4.  The framing is not injective: one sent message that contains
    the delimiter arrives as two.  For delimiter-free [m1] and [m2], after
    the single send of [m1 ++ "EOF" ++ m2] the receiver gets [m1], then
    [m2]. *)
Theorem delimiter_in_message_splits (m1 m2 : string) :
  EOF_free m1 -> EOF_free m2 ->
  recv_many 2 (mkChannel [] (wire (send_all [m1 ++ EOF ++ m2])) [])
  = ([m1; m2], Ok tt, fresh).
Proof.
  intros H1 H2.
  replace (wire (send_all [m1 ++ EOF ++ m2])) with (map frame [[m1; m2]]).
  - apply (recv_many_groups [[m1; m2]] []); repeat constructor; try assumption.
    discriminate.
  - unfold send_all, fresh. cbn [fold_left send_single_msg wire app map frame].
    now rewrite !append_assoc, append_empty_r.
Qed.

Lemma delimiter_in_message_splits_witness :
  recv_many 2 (mkChannel [] (wire (send_all ["key" ++ EOF ++ "bits"])) [])
  = (["key"; "bits"], Ok tt, fresh).
Proof. apply delimiter_in_message_splits; reflexivity. Defined.

(** X5.  The wait for the acknowledgment always ends in one of three
    ways, whatever the transport holds: ["ACK"] was received, the transport
    has nothing more to deliver (the call blocks for good), or a read
    without delimiter raised [IndexError].  [ack_budget] receives suffice,
    and more fuel does not change the outcome. *)
Theorem await_ack_outcomes (c : Channel) (fuel : nat) :
  (ack_budget c <= fuel)%nat ->
  exists c',
    (await_ack fuel c = Some (Ok tt, c')
     \/ await_ack fuel c = Some (Blocked, c')
     \/ await_ack fuel c = Some (Raise IndexError, c'))
    /\ await_ack fuel c = await_ack (ack_budget c) c.
Proof.
  intros Hb. destruct (await_ack_total (ack_budget c) c (le_n _)) as [c' Hc'].
  assert (Hsame : forall r, await_ack (ack_budget c) c = Some r ->
                            await_ack fuel c = Some r).
  { intros r Hr. replace fuel with (ack_budget c + (fuel - ack_budget c))%nat by lia.
    now apply await_ack_more_fuel. }
  exists c'. destruct Hc' as [H|[H|H]]; rewrite (Hsame _ H), H; auto.
Qed.

Lemma await_ack_outcomes_witness :
  exists c',
    (await_ack 20 (mkChannel [] ["hiEOFACKEOF"] []) = Some (Ok tt, c')
     \/ await_ack 20 (mkChannel [] ["hiEOFACKEOF"] []) = Some (Blocked, c')
     \/ await_ack 20 (mkChannel [] ["hiEOFACKEOF"] []) = Some (Raise IndexError, c'))
    /\ await_ack 20 (mkChannel [] ["hiEOFACKEOF"] [])
       = await_ack (ack_budget (mkChannel [] ["hiEOFACKEOF"] []))
                   (mkChannel [] ["hiEOFACKEOF"] []).
Proof.
  apply (await_ack_outcomes (mkChannel [] ["hiEOFACKEOF"] []) 20).
  vm_compute. lia.
Defined.

Section JsonFacts.

Context {data : Type}.
Variable dumps : data -> string.
Variable loads : string -> result data.

(** X6.  [sendClassicalAssured] returns at the first ["ACK"]: the
    messages that arrive before it are received and dropped, the ones
    after it stay available to the following receives, in order. *)
Theorem assured_send_drops_until_ack
    (groups : list (list string)) (pre post : list string) (w : list string)
    (d : data) :
  Forall (fun g => g <> []) groups ->
  Forall (Forall EOF_free) groups ->
  concat groups = @app string pre ("ACK" :: post) ->
  Forall (fun m => m <> "ACK") pre ->
  exists c',
    sendClassicalAssured dumps (S (length pre)) (mkChannel [] (map frame groups) w) d
    = Some (Ok tt, c')
    /\ wire c' = (@app string w [dumps d ++ EOF])
    /\ recv_many (length post) c' = (post, Ok tt, mkChannel [] [] (wire c')).
Proof.
  intros Hne Hfree Hcat Hpre. unfold sendClassicalAssured, send_single_msg.
  cbn [buf_msgs pending wire].
  pose proof (recv_many_groups groups (@app string w [dumps d ++ EOF]) Hne Hfree) as Hall.
  rewrite Hcat, length_app in Hall. cbn [length] in Hall.
  destruct (recv_many_split _ _ _ _ _ Hall) as (c1 & H1 & H2).
  rewrite take_app_length in H1. rewrite drop_app_length in H2.
  change (S (length post)) with (1 + length post)%nat in H2.
  destruct (recv_many_split _ _ _ _ _ H2) as (c' & H3 & H4).
  cbn [take drop] in H3, H4. apply recv_many_one in H3.
  exists c'. replace (S (length pre)) with (length pre + 1)%nat by lia.
  rewrite (await_skip _ 1 _ _ _ H1 Hpre). cbn [await_ack]. rewrite H3.
  cbn [String.eqb Ascii.eqb Bool.eqb].
  assert (Hw : wire c' = (@app string w [dumps d ++ EOF])).
  { rewrite (recv_single_msg_wire _ _ _ H3), (recv_many_wire _ _ _ _ _ H1).
    reflexivity. }
  split; [reflexivity|]. split; [exact Hw|]. now rewrite Hw.
Qed.

(** X7.  Without an ["ACK"] [sendClassicalAssured] never returns: it
    receives and drops every message the peer sent and then blocks on the
    empty transport. *)
Theorem assured_send_blocks_without_ack
    (groups : list (list string)) (w : list string) (d : data) :
  Forall (fun g => g <> []) groups ->
  Forall (Forall EOF_free) groups ->
  Forall (fun m => m <> "ACK") (concat groups) ->
  sendClassicalAssured dumps (S (length (concat groups)))
    (mkChannel [] (map frame groups) w) d
  = Some (Blocked, mkChannel [] [] (@app string w [dumps d ++ EOF])).
Proof.
  intros Hne Hfree Hnoack. unfold sendClassicalAssured, send_single_msg.
  cbn [buf_msgs pending wire].
  pose proof (recv_many_groups groups (@app string w [dumps d ++ EOF]) Hne Hfree) as Hall.
  replace (S (length (concat groups))) with (length (concat groups) + 1)%nat by lia.
  rewrite (await_skip _ 1 _ _ _ Hall Hnoack). reflexivity.
Qed.

(** X8.  [recvClassicalAssured] acknowledges only what it could decode:
    when [json.loads] accepts the first message of the read, the data is
    returned and ["ACK"] is sent; when it raises, the exception goes up and
    nothing is sent.  The rest of the read stays buffered either way. *)
Theorem assured_recv_acks_after_decoding
    (m : string) (ms later w : list string) :
  Forall EOF_free (m :: ms) ->
  (forall d, loads m = Ok d ->
     recvClassicalAssured loads (mkChannel [] (frame (m :: ms) :: later) w)
     = (Ok d, mkChannel ms later (@app string w ["ACK" ++ EOF])))
  /\ (forall e, loads m = Raise e ->
        recvClassicalAssured loads (mkChannel [] (frame (m :: ms) :: later) w)
        = (Raise e, mkChannel ms later w)).
Proof.
  intros Hfree. unfold recvClassicalAssured.
  rewrite (recv_whole_read _ _ _ _ Hfree).
  split; intros x Hx; rewrite Hx; reflexivity.
Qed.

(** X9.  One assured exchange.  When the encoding of [d] holds no
    delimiter and decodes back to [d]: the receiver, reading what the
    sender put on the wire, returns [d] and answers; the sender, reading
    that answer, returns, with nothing left in either direction. *)
Theorem assured_round_trip (d : data) :
  EOF_free (dumps d) ->
  loads (dumps d) = Ok d ->
  exists bob,
    recvClassicalAssured loads
      (mkChannel [] (wire (send_single_msg fresh (dumps d))) [])
    = (Ok d, bob)
    /\ buf_msgs bob = [] /\ pending bob = []
    /\ sendClassicalAssured dumps 1 (mkChannel [] (wire bob) []) d
       = Some (Ok tt, mkChannel [] [] [dumps d ++ EOF]).
Proof.
  intros Hfree Hloads.
  assert (Hd : Forall EOF_free [dumps d]) by (constructor; [exact Hfree | constructor]).
  exists (mkChannel [] [] ["ACK" ++ EOF]). split; [|split; [|split]]; try reflexivity.
  unfold recvClassicalAssured. cbn [send_single_msg fresh wire buf_msgs pending app].
  replace (dumps d ++ EOF) with (frame [dumps d])
    by (cbn [frame]; now rewrite append_empty_r).
  rewrite (recv_whole_read _ _ _ _ Hd), Hloads. reflexivity.
Qed.

End JsonFacts.

Lemma assured_send_drops_until_ack_witness :
  exists c',
    sendClassicalAssured (fun s : string => s) 2
      (mkChannel [] ["xEOFACKEOF"; "yEOF"] []) "hi"
    = Some (Ok tt, c')
    /\ wire c' = ["hiEOF"]
    /\ recv_many 1 c' = (["y"], Ok tt, mkChannel [] [] (wire c')).
Proof.
  apply (assured_send_drops_until_ack (fun s : string => s)
           [["x"; "ACK"]; ["y"]] ["x"] ["y"] [] "hi").
  - repeat constructor; discriminate.
  - repeat constructor.
  - reflexivity.
  - repeat constructor; discriminate.
Defined.

Lemma assured_send_blocks_without_ack_witness :
  sendClassicalAssured (fun s : string => s) 3
    (mkChannel [] ["xEOFNAKEOF"] []) "hi"
  = Some (Blocked, mkChannel [] [] ["hiEOF"]).
Proof.
  apply (assured_send_blocks_without_ack (fun s : string => s) [["x"; "NAK"]] [] "hi").
  - repeat constructor; discriminate.
  - repeat constructor.
  - repeat constructor; discriminate.
Defined.

Lemma assured_recv_acks_after_decoding_witness :
  recvClassicalAssured (fun s : string => if String.eqb s "1" then Ok 1%Z else Raise ValueError)
    (mkChannel [] ["{EOF1EOF"] [])
  = (Raise ValueError, mkChannel ["1"] [] []).
Proof.
  apply (proj2 (assured_recv_acks_after_decoding
                  (fun s : string => if String.eqb s "1" then Ok 1%Z else Raise ValueError)
                  "{" ["1"] [] [] ltac:(repeat constructor))).
  reflexivity.
Defined.

Lemma assured_round_trip_witness :
  exists bob,
    recvClassicalAssured (fun s : string => Ok s)
      (mkChannel [] (wire (send_single_msg fresh "[1, 2]")) [])
    = (Ok "[1, 2]", bob)
    /\ buf_msgs bob = [] /\ pending bob = []
    /\ sendClassicalAssured (fun s : string => s) 1 (mkChannel [] (wire bob) []) "[1, 2]"
       = Some (Ok tt, mkChannel [] [] ["[1, 2]" ++ EOF]).
Proof.
  apply (assured_round_trip (fun s : string => s) (fun s : string => Ok s) "[1, 2]");
    reflexivity.
Defined.

End AssuredFacts.

(** ** Pair distribution *)

Lemma py_setitem_nat {A} (l : list A) (k : nat) (v : A) :
  (k < length l)%nat -> py_setitem l (Z.of_nat k) v = Ok (<[k := v]> l).
Proof.
  intros Hk. unfold py_setitem. rewrite py_setattr_at_nat by exact Hk.
  f_equal. revert k Hk. induction l as [|x l IH]; intros [|k] Hk; cbn in *;
    try lia; [reflexivity|].
  f_equal. apply IH. lia.
Qed.

(** The loop, started behind the pairs already shared. *)
Lemma share_loop_from meas preB sufB done trace :
  length done = length preB ->
  share_loop meas (preB ++ sufB) (seq (length preB) (length sufB))
    (done ++ replicate (length sufB) None) trace
  = Ok (done ++ map (fun i => Some (Z.b2z (meas i))) (seq (length preB) (length sufB)),
        trace ++ flat_map pair_ops sufB).
Proof.
  revert preB done trace. induction sufB as [|b sufB IH]; intros preB done trace Hlen.
  - cbn. now rewrite !app_nil_r.
  - cbn [length seq share_loop replicate map flat_map].
    rewrite (py_getitem_nat (preB ++ b :: sufB) (length preB) b)
      by apply list_lookup_middle, eq_refl.
    cbn [obind].
    rewrite py_setitem_nat by (rewrite length_app; cbn [length]; lia).
    cbn [obind].
    assert (E : forall (v : option Z) rest,
               <[length preB := v]> (done ++ None :: rest) = done ++ v :: rest).
    { intros v rest. rewrite <- Hlen.
      replace (length done) with (length done + 0)%nat at 1 by lia.
      now rewrite insert_app_r. }
    rewrite E. clear E.
    specialize (IH (preB ++ [b]) (done ++ [Some (Z.b2z (meas (length preB)))])
                  (trace ++ pair_ops b)).
    rewrite !length_app in IH. cbn [length] in IH.
    replace (length preB + 1)%nat with (S (length preB)) in IH by lia.
    rewrite <- !app_assoc in IH. cbn [app] in IH.
    change ([QCreateKeep] ++ (if b =? 0 then [] else [QH])
              ++ [QFlush; QMeasure; QFlush]) with (pair_ops b).
    apply IH. lia.
Qed.

Lemma distribute_closed_form coin meas n :
  distribute_bb92_states coin meas n
  = Ok (map Some (map (fun i => Z.b2z (meas i)) (seq 0 (Z.to_nat n))),
        map (fun i => Z.b2z (coin i)) (seq 0 (Z.to_nat n)),
        flat_map pair_ops (map (fun i => Z.b2z (coin i)) (seq 0 (Z.to_nat n)))).
Proof.
  unfold distribute_bb92_states.
  pose proof (share_loop_from meas []
                (map (fun i => Z.b2z (coin i)) (seq 0 (Z.to_nat n))) [] [] eq_refl)
    as H.
  rewrite length_map, length_seq in H. cbn [app length] in H.
  rewrite H. cbn [obind fst snd]. now rewrite map_map.
Qed.

Lemma Forall_bit_b2z (f : nat -> bool) (l : list nat) :
  Forall is_bit (map (fun i => Z.b2z (f i)) l).
Proof.
  apply List.Forall_map, List.Forall_forall. intros i _.
  destruct (f i); [now right | now left].
Qed.

Lemma pair_ops_measure b pre post :
  pair_ops b = pre ++ QMeasure :: post ->
  (exists pre', pre = pre' ++ [QFlush]) /\ post = [QFlush].
Proof.
  unfold pair_ops. destruct (b =? 0); cbn [app]; intros H.
  - destruct pre as [|a [|a' [|a'' pre]]]; cbn in H; try discriminate.
    + injection H as <- <- <-. split; [now exists [QCreateKeep] | reflexivity].
    + injection H as _ _ _ H. destruct pre as [|? [|? ?]]; discriminate.
  - destruct pre as [|a [|a' [|a'' [|a3 pre]]]]; cbn in H; try discriminate.
    + injection H as <- <- <- <-.
      split; [now exists [QCreateKeep; QH] | reflexivity].
    + injection H as _ _ _ _ H. destruct pre as [|? [|? ?]]; discriminate.
Qed.

Lemma pair_ops_ends_flushed b : exists ops, pair_ops b = ops ++ [QFlush].
Proof.
  unfold pair_ops. destruct (b =? 0).
  - now exists [QCreateKeep; QFlush; QMeasure].
  - now exists [QCreateKeep; QH; QFlush; QMeasure].
Qed.

Lemma flat_pair_ops_measure bases pre post :
  flat_map pair_ops bases = pre ++ QMeasure :: post ->
  (exists pre', pre = pre' ++ [QFlush]) /\ (exists post', post = QFlush :: post').
Proof.
  revert pre. induction bases as [|b bases IH]; intros pre H.
  - destruct pre; discriminate.
  - cbn [flat_map] in H. apply List.app_eq_app in H as [l [[H1 H2]|[H1 H2]]].
    + destruct l as [|x l].
      * rewrite app_nil_r in H1. cbn [app] in H2.
        destruct bases as [|b' bases]; [discriminate|].
        cbn [flat_map] in H2. unfold pair_ops in H2. discriminate.
      * cbn [app] in H2. injection H2 as <- ->.
        destruct (pair_ops_measure _ _ _ H1) as [Hpre ->].
        split; [exact Hpre | now eexists].
    + destruct (IH _ H2) as [[pre' ->] Hpost].
      split; [|exact Hpost]. exists (pair_ops b ++ pre'). rewrite H1.
      now rewrite app_assoc.
Qed.

Lemma count_op_flat_pair_ops bases :
  count_op QCreateKeep (flat_map pair_ops bases) = length bases
  /\ count_op QMeasure (flat_map pair_ops bases) = length bases
  /\ count_op QFlush (flat_map pair_ops bases) = (2 * length bases)%nat
  /\ count_op QH (flat_map pair_ops bases)
     = length (List.filter (fun b => negb (b =? 0)) bases).
Proof.
  unfold count_op. induction bases as [|b bases (I1 & I2 & I3 & I4)]; [now cbn|].
  cbn [flat_map List.filter length]. rewrite !List.filter_app, !length_app.
  rewrite I1, I2, I3, I4. unfold pair_ops.
  destruct (b =? 0); cbn; repeat split; lia.
Qed.

Lemma lookup_py_zip {A B} (l : list A) (r : list B) i a b :
  l !! i = Some a -> r !! i = Some b -> py_zip l r !! i = Some (a, b).
Proof.
  revert r i. induction l as [|x l IH]; intros [|y r] [|i]; cbn; try discriminate.
  - now intros [= ->] [= ->].
  - apply IH.
Qed.

Lemma lookup_initial_pairs bit_flips basis_flips i b o :
  bit_flips !! i = Some o -> basis_flips !! i = Some b ->
  initial_pairs bit_flips basis_flips !! i
  = Some (mkPair (Z.of_nat i) b o None None None).
Proof.
  intros Ho Hb. unfold initial_pairs, enumerate.
  rewrite lookup_map,
    (lookup_enumerate_from 0 _ i (b, o) (lookup_py_zip _ _ _ _ _ Hb Ho)).
  reflexivity.
Qed.

(** X10.  [distribute_bb92_states] never raises and returns two lists
    with one entry per requested pair (none for [n <= 0]): every
    placeholder of [bit_flips] has been replaced by the measured bit of its
    pair, every basis is the drawn 0 or 1. *)
Theorem distribute_returns_one_bit_per_pair (coin meas : nat -> bool) (n : Z) :
  exists bits bases trace,
    distribute_bb92_states coin meas n = Ok (map Some bits, bases, trace)
    /\ length bits = Z.to_nat n /\ length bases = Z.to_nat n
    /\ Forall is_bit bits /\ Forall is_bit bases
    /\ (forall i, (i < Z.to_nat n)%nat ->
          bits !! i = Some (Z.b2z (meas i)) /\ bases !! i = Some (Z.b2z (coin i))).
Proof.
  eexists _, _, _. split; [apply distribute_closed_form|].
  rewrite !length_map, !length_seq.
  split; [reflexivity|]. split; [reflexivity|].
  split; [apply Forall_bit_b2z|]. split; [apply Forall_bit_b2z|].
  intros i Hi. rewrite !lookup_map, !lookup_seq_lt by exact Hi. now cbn.
Qed.

(** X11.  The order of the quantum operations.  In everything
    [distribute_bb92_states] issues, each measurement stands directly
    between two flushes: the pair is shared before Alice measures, and the
    measurement is executed before its result is read.  There is one
    creation and one measurement per pair, two flushes per pair, and one
    basis change per pair drawn in the X basis. *)
Theorem distribute_flushes_around_measure (coin meas : nat -> bool) (n : Z) :
  exists bits bases trace,
    distribute_bb92_states coin meas n = Ok (bits, bases, trace)
    /\ (forall pre post, trace = pre ++ QMeasure :: post ->
          (exists pre', pre = pre' ++ [QFlush])
          /\ (exists post', post = QFlush :: post'))
    /\ count_op QCreateKeep trace = Z.to_nat n
    /\ count_op QMeasure trace = Z.to_nat n
    /\ count_op QFlush trace = (2 * Z.to_nat n)%nat
    /\ count_op QH trace = length (List.filter (fun b => b =? 1) bases).
Proof.
  eexists _, _, _. split; [apply distribute_closed_form|].
  split; [intros pre post; apply flat_pair_ops_measure|].
  destruct (count_op_flat_pair_ops
              (map (fun i => Z.b2z (coin i)) (seq 0 (Z.to_nat n))))
    as (H1 & H2 & H3 & H4).
  rewrite length_map, length_seq in H1, H2, H3.
  repeat split; try assumption.
  rewrite H4. f_equal. apply List.filter_ext_in. intros b Hb.
  apply in_map_iff in Hb as (i & <- & _). now destruct (coin i).
Qed.

(** X12.  What [distribute_bb92_states] returns is what [main]'s loop
    over [range(num_bits)] needs: called with the same count, the loop
    never raises [IndexError] and builds one pair per qubit, the pair at
    position [i] carrying index [i], the basis drawn for it and the bit
    measured for it. *)
Theorem distribute_feeds_main (coin meas : nat -> bool) (num_bits : Z) :
  exists bits bases trace pairs,
    distribute_bb92_states coin meas num_bits = Ok (map Some bits, bases, trace)
    /\ make_pairs bits bases (py_range num_bits) = Ok pairs
    /\ length pairs = Z.to_nat num_bits
    /\ (forall i, (i < Z.to_nat num_bits)%nat ->
          pairs !! i = Some (mkPair (Z.of_nat i) (Z.b2z (coin i)) (Z.b2z (meas i))
                                    None None None)).
Proof.
  set (N := Z.to_nat num_bits).
  set (bits := map (fun i => Z.b2z (meas i)) (seq 0 N)).
  set (bases := map (fun i => Z.b2z (coin i)) (seq 0 N)).
  assert (Hb : length bits = N) by (unfold bits; now rewrite length_map, length_seq).
  assert (Hs : length bases = N) by (unfold bases; now rewrite length_map, length_seq).
  assert (Hmk : make_pairs bits bases (py_range num_bits) = Ok (initial_pairs bits bases)).
  { replace (py_range num_bits) with (py_range (Z.of_nat N))
      by (unfold py_range; now rewrite Nat2Z.id).
    apply make_pairs_ok; lia. }
  exists bits, bases, (flat_map pair_ops bases), (initial_pairs bits bases).
  split; [apply distribute_closed_form|]. split; [exact Hmk|].
  assert (Hlen : length (initial_pairs bits bases) = N)
    by (rewrite length_initial_pairs; lia).
  split; [exact Hlen|].
  intros i Hi. apply lookup_initial_pairs.
  - unfold bits. rewrite lookup_map, lookup_seq_lt by exact Hi. reflexivity.
  - unfold bases. rewrite lookup_map, lookup_seq_lt by exact Hi. reflexivity.
Qed.

(** ** Basis reconciliation: desynchronised and short peer lists *)

Lemma filter_bases_loop_desync pre suf peer j b tail :
  (length peer < length suf)%nat ->
  j <> Z.of_nat (length pre + length peer) ->
  filter_bases_loop
    (py_zip (map (fun ip => (fst ip, basis (snd ip)))
                 (enumerate_from (Z.of_nat (length pre)) suf))
            (map pack_pair (enumerate_from (Z.of_nat (length pre)) peer)
               ++ IPair j b :: tail))
    (pre ++ suf)
  = Raise AssertionError.
Proof.
  revert pre suf. induction peer as [|c peer IH]; intros pre suf Hlen Hj.
  - destruct suf as [|p suf]; [cbn in Hlen; lia|].
    cbn [enumerate_from map app py_zip filter_bases_loop fst snd unpack_pair obind].
    destruct (Z.eqb_spec (Z.of_nat (length pre)) j); [|reflexivity].
    cbn [length] in Hj. lia.
  - destruct suf as [|p suf]; [cbn in Hlen; lia|].
    cbn [enumerate_from map app py_zip filter_bases_loop fst snd pack_pair
         unpack_pair obind].
    rewrite Z.eqb_refl.
    rewrite py_setattr_at_nat by (rewrite length_app; cbn; lia).
    cbn [obind].
    replace (length pre) with (length pre + 0)%nat at 3 by lia.
    rewrite alter_app_r. cbn [alter list_alter].
    replace (Z.of_nat (length pre) + 1)
      with (Z.of_nat (length (pre ++ [set_same_basis (basis p =? c) p])))
      by (rewrite length_app; cbn; lia).
    rewrite (cons_middle _ pre suf), app_assoc.
    apply IH.
    + cbn [length] in Hlen. lia.
    + rewrite length_app. cbn [length] in *. lia.
Qed.

Lemma sum_flags_unset l : In None l -> sum_flags l = Raise TypeError.
Proof.
  induction l as [|[b|] l IH]; cbn [In sum_flags]; [intros []| |reflexivity].
  intros [H|H]; [discriminate|]. now rewrite (IH H).
Qed.

Lemma make_pairs_fresh bit_flips basis_flips range pairs :
  make_pairs bit_flips basis_flips range = Ok pairs ->
  Forall (fun p => same_basis p = None) pairs.
Proof.
  revert pairs. induction range as [|i range IH]; intros pairs; cbn [make_pairs].
  - intros [= <-]. constructor.
  - destruct (py_getitem basis_flips i); cbn [obind]; try discriminate.
    destruct (py_getitem bit_flips i); cbn [obind]; try discriminate.
    destruct (make_pairs bit_flips basis_flips range); cbn [obind]; try discriminate.
    intros [= <-]. constructor; [reflexivity | now apply IH].
Qed.

Lemma make_pairs_length bit_flips basis_flips num_bits pairs :
  make_pairs bit_flips basis_flips (py_range num_bits) = Ok pairs ->
  length pairs = Z.to_nat num_bits.
Proof.
  intros H. apply make_pairs_index in H.
  rewrite <- (length_map index pairs), H. unfold py_range.
  now rewrite length_map, length_seq.
Qed.

Lemma reconcile_beyond pairs peer i :
  (length peer <= i)%nat -> reconcile pairs peer !! i = pairs !! i.
Proof.
  revert peer i. induction pairs as [|p ps IH]; intros [|b bs] i Hi; cbn; try reflexivity.
  destruct i as [|i]; cbn in *; [lia|]. apply IH. lia.
Qed.

(** X13.  A peer basis list whose index at some position is not that
    position is a fatal desynchronisation: [filter_bases] raises
    [AssertionError] at the first such entry, after its own bases were
    sent and the peer's message consumed. *)
Theorem filter_bases_desync_is_fatal
    (pairs_info : list PairInfo) (peer_basis : list Z) (j b : Z)
    (tail : list item) (header : string) (rest out : list message) :
  (length peer_basis < length pairs_info)%nat ->
  j <> Z.of_nat (length peer_basis) ->
  filter_bases pairs_info
    (mkSocket (Structured header (bases_payload peer_basis ++ IPair j b :: tail) :: rest)
              out)
  = (Raise AssertionError,
     mkSocket rest (out ++ [Structured "Bases" (map pack_pair (local_bases pairs_info))])).
Proof.
  intros Hlen Hj.
  unfold filter_bases, bind, send_structured, send, recv_structured_payload,
    bind, recv, ret, lift.
  cbn [inbox outbox].
  pose proof (filter_bases_loop_desync [] pairs_info peer_basis j b tail Hlen Hj) as H.
  cbn [length app Nat.add] in H. unfold local_bases, bases_payload, enumerate.
  change (Z.of_nat 0) with 0 in H. now rewrite H.
Qed.

Lemma filter_bases_desync_is_fatal_witness :
  filter_bases [mkPair 0 0 1 None None None; mkPair 1 1 0 None None None]
    (mkSocket [Structured "Bases" [IPair 0 0; IPair 5 1]] [])
  = (Raise AssertionError,
     mkSocket [] [Structured "Bases" [IPair 0 0; IPair 1 1]]).
Proof.
  apply (filter_bases_desync_is_fatal
           [mkPair 0 0 1 None None None; mkPair 1 1 0 None None None]
           [0] 5 1 [] "Bases" [] []).
  - cbn. lia.
  - discriminate.
Defined.

(** X14.  A peer basis list that is index-aligned but shorter than
    [num_bits] passes reconciliation unnoticed ([zip] stops at the shorter
    list), yet the run cannot end in a report: the pairs beyond it keep
    [same_basis = None] and the sum over that column raises. *)
Theorem short_peer_list_yields_no_report
    (bit_flips basis_flips peer_basis : list Z) (rs : list nat)
    (num_bits key_length : Z) (header : string) (rest out : list message)
    (rep : Report) (sock' : Socket) :
  (length peer_basis < Z.to_nat num_bits)%nat ->
  main bit_flips basis_flips rs num_bits key_length
    (mkSocket (Text ALL_MEASURED :: Structured header (bases_payload peer_basis) :: rest)
              out)
  <> (Ok rep, sock').
Proof.
  intros Hshort Hrun.
  destruct (main_inv _ _ _ _ _ _ _ _ Hrun)
    as (pairs0 & rest0 & pairs1 & sock1 & pairs2 & rate & H0 & Hin & H1 & H2 & H3).
  cbn [inbox outbox] in Hin, H1. injection Hin as <-.
  rewrite filter_bases_run in H1. injection H1 as <- <-.
  destruct (estimate_error_rate_inv _ _ _ _ _ _ _ H2)
    as (tos & hdr2 & target & rest2 & ne & _ & _ & Hloop & _).
  destruct (compare_loop_core _ _ _ _ _ Hloop) as (Hcore & _ & _).
  pose proof (make_pairs_length _ _ _ _ H0) as Hlen0.
  destruct (lookup_lt_is_Some_2 pairs0 (length peer_basis)) as [p Hp]; [lia|].
  pose proof (make_pairs_fresh _ _ _ _ H0) as Hfresh.
  rewrite Forall_lookup in Hfresh. pose proof (Hfresh _ _ Hp) as Hnone.
  assert (Hj : map core pairs2 !! length peer_basis
               = Some (core (set_test_outcome
                               (bool_decide (index p ∈ test_indices_of rs
                                               (reconcile pairs0 peer_basis)
                                               (num_test_bits_of num_bits))) p))).
  { rewrite Hcore, lookup_map, lookup_mark_tests, reconcile_beyond, Hp by lia.
    reflexivity. }
  rewrite lookup_map in Hj.
  destruct (pairs2 !! length peer_basis) as [p2|] eqn:Hp2; [|discriminate].
  cbn in Hj. injection Hj as _ _ _ Hsb _. rewrite Hnone in Hsb.
  destruct (report_of_inv _ _ _ _ H3) as (Hcount & _).
  unfold count_same_basis in Hcount.
  rewrite sum_flags_unset in Hcount; [discriminate|].
  rewrite <- Hsb. apply in_map. apply list_elem_of_In.
  eapply list_elem_of_lookup_2; exact Hp2.
Qed.

Lemma short_peer_list_yields_no_report_witness :
  main [1; 0] [0; 0] [] 2 16
    (mkSocket [Text ALL_MEASURED; Structured "Bases" (bases_payload [0]);
               Structured "Test outcomes" [IPair 0 1]] [])
  <> (Ok (mkReport [] [] 0 0 0 0 0 1 0%R []), mkSocket [] []).
Proof.
  apply (short_peer_list_yields_no_report [1; 0] [0; 0] [0] [] 2 16 "Bases"
           [Structured "Test outcomes" [IPair 0 1]] []).
  cbn. lia.
Defined.

(** ** Error estimation: what is disclosed, and how many are tested *)

(** X15.  Alice discloses her test outcomes only after the peer's have
    arrived.  If the peer stays silent after the test indices were sent,
    [estimate_error_rate] blocks with the ["Test indices"] message as the
    only thing sent: the (index, outcome) pairs have not left. *)
Theorem outcomes_disclosed_after_reply
    (rs : list nat) (pairs_info : list PairInfo) (k : Z) (out : list message) :
  0 <= k ->
  indexed pairs_info ->
  estimate_error_rate rs pairs_info k (mkSocket [] out)
  = (Blocked,
     mkSocket [] (out ++ [Structured "Test indices"
                            (map IInt (test_indices_of rs pairs_info k))])).
Proof.
  intros Hk Hidx.
  set (T := test_indices_of rs pairs_info k).
  assert (HT : forall i, i ∈ T ->
                 exists j, i = Z.of_nat j /\ (j < length (mark_tests T pairs_info))%nat).
  { intros i Hi. rewrite length_mark_tests. apply indexed_position; [exact Hidx|].
    apply matched_is_index. eapply test_indices_matched. exact Hi. }
  destruct (collect_outcomes_ok _ _ HT) as [tos Htos].
  unfold estimate_error_rate, bind, lift, ret, send_structured, send,
    recv_structured_payload, bind, recv, lift, ret.
  rewrite random_sample_ok by exact Hk. fold T. rewrite Htos. reflexivity.
Qed.

Lemma outcomes_disclosed_after_reply_witness :
  estimate_error_rate [0%nat]
    [mkPair 0 0 1 (Some true) None None; mkPair 1 1 0 (Some true) None None] 1
    (mkSocket [] [])
  = (Blocked, mkSocket [] [Structured "Test indices" [IInt 0]]).
Proof.
  apply (outcomes_disclosed_after_reply [0%nat]
           [mkPair 0 0 1 (Some true) None None; mkPair 1 1 0 (Some true) None None]
           1 []).
  - lia.
  - intros [|[|j]] p; cbn; intros [= <-]; reflexivity.
Defined.

Lemma delete_misses {A} (l : list A) (j : nat) (x : A) :
  NoDup l -> l !! j = Some x -> x ∉ delete j l.
Proof.
  intros Hnd Hj Hin. rewrite delete_take_drop in Hin.
  rewrite <- (take_drop_middle l j x Hj) in Hnd.
  apply NoDup_app in Hnd as (_ & Hdisj & Hnd).
  apply NoDup_cons in Hnd as [Hx _].
  apply elem_of_app in Hin as [Hin|Hin]; [|contradiction].
  apply (Hdisj x Hin). now left.
Qed.

Lemma sample_draw_NoDup rs pool k : NoDup pool -> NoDup (sample_draw rs pool k).
Proof.
  revert rs pool. induction k as [|k IH]; intros rs pool Hnd; cbn [sample_draw];
    [constructor|].
  destruct pool as [|x0 pool0] eqn:Hpool; [constructor|].
  rewrite <- Hpool in *. set (j := (hd 0%nat rs mod length pool)%nat).
  assert (Hj : (j < length pool)%nat)
    by (apply Nat.mod_upper_bound; rewrite Hpool; discriminate).
  destruct (nth_lookup_or_length pool j x0) as [Hn|Hn]; [|lia].
  apply NoDup_cons. split.
  - intros Hin. apply sample_draw_subset in Hin.
    exact (delete_misses _ _ _ Hnd Hn Hin).
  - apply IH. eapply sublist_NoDup; [exact Hnd | apply sublist_delete].
Qed.

Lemma NoDup_map_filter {A B} (g : A -> B) (f : A -> bool) (l : list A) :
  NoDup (map g l) -> NoDup (map g (List.filter f l)).
Proof.
  induction l as [|x l IH]; cbn [map List.filter]; intros Hnd; [constructor|].
  apply NoDup_cons in Hnd as [Hx Hnd].
  destruct (f x); [|now apply IH].
  cbn [map]. apply NoDup_cons. split; [|now apply IH].
  intros Hin. apply Hx.
  apply list_elem_of_In, in_map_iff in Hin as (y & Hy & Hyin).
  apply List.filter_In in Hyin as [Hyin _].
  apply list_elem_of_In, in_map_iff. now exists y.
Qed.

Lemma indexed_NoDup pairs : indexed pairs -> NoDup (map index pairs).
Proof.
  intros Hidx. rewrite (index_map_of_indexed _ Hidx).
  apply (NoDup_fmap_2 Z.of_nat), NoDup_seq.
Qed.

(** The pairs that get marked are as many as the sampled indices. *)
Lemma count_marked T pairs :
  NoDup (map index pairs) -> NoDup T ->
  (forall i, i ∈ T -> i ∈ map index pairs) ->
  length (List.filter (fun p => bool_decide (index p ∈ T)) pairs) = length T.
Proof.
  intros Hnd HT Hsub.
  rewrite <- (length_map index (List.filter _ pairs)).
  apply Permutation_length, NoDup_Permutation;
    [now apply NoDup_map_filter | exact HT |].
  intros i. split.
  - intros Hi. apply list_elem_of_In, in_map_iff in Hi as (p & <- & Hp).
    apply List.filter_In in Hp as [_ Hp]. now apply bool_decide_eq_true in Hp.
  - intros Hi. pose proof (Hsub i Hi) as Hin.
    apply list_elem_of_In, in_map_iff in Hin as (p & <- & Hp).
    apply list_elem_of_In, in_map_iff. exists p. split; [reflexivity|].
    apply List.filter_In. split; [exact Hp | now apply bool_decide_eq_true].
Qed.

Lemma length_test_indices rs pairs k :
  0 <= k ->
  Z.of_nat (length (test_indices_of rs pairs k))
  = Z.min k (Z.of_nat (length (same_basis_indices pairs))).
Proof.
  intros Hk. unfold test_indices_of, sample_size. rewrite sample_draw_length. lia.
Qed.

(** X16.  Sampling without replacement.  On a pair list whose indices
    are the positions, the test indices drawn for a sample size [k >= 0]
    are [min(k, pool size)] many, pairwise distinct, and all taken from
    the indices of the basis-matched pairs. *)
Theorem sampled_indices_distinct_from_pool
    (rs : list nat) (pairs_info : list PairInfo) (k : Z) :
  0 <= k ->
  indexed pairs_info ->
  let T := test_indices_of rs pairs_info k in
  random_sample rs (same_basis_indices pairs_info) (sample_size pairs_info k) = Ok T
  /\ Z.of_nat (length T) = Z.min k (Z.of_nat (length (same_basis_indices pairs_info)))
  /\ NoDup T
  /\ (forall i, i ∈ T ->
       exists p, p ∈ pairs_info /\ index p = i /\ same_basis p = Some true).
Proof.
  intros Hk Hidx T. split; [now apply random_sample_ok|].
  split; [now apply length_test_indices|]. split.
  - apply sample_draw_NoDup. unfold same_basis_indices.
    apply NoDup_map_filter, indexed_NoDup, Hidx.
  - intros i Hi. apply test_indices_matched in Hi. unfold same_basis_indices in Hi.
    apply list_elem_of_In, in_map_iff in Hi as (p & Hp & Hin).
    apply List.filter_In in Hin as [Hin Hsb].
    exists p. split; [now apply list_elem_of_In|]. split; [exact Hp|].
    now destruct (same_basis p) as [[|]|].
Qed.

Lemma sampled_indices_distinct_from_pool_witness :
  NoDup (test_indices_of [7%nat; 7%nat; 7%nat]
           [mkPair 0 0 1 (Some true) None None;
            mkPair 1 1 0 (Some false) None None;
            mkPair 2 0 1 (Some true) None None] 5).
Proof.
  refine (proj1 (proj2 (proj2 (sampled_indices_distinct_from_pool
                                 [7%nat; 7%nat; 7%nat]
                                 [mkPair 0 0 1 (Some true) None None;
                                  mkPair 1 1 0 (Some false) None None;
                                  mkPair 2 0 1 (Some true) None None] 5 _ _)))).
  - lia.
  - intros [|[|[|j]]] p; cbn; intros [= <-]; reflexivity.
Defined.

Lemma filter_marked T pairs :
  length (List.filter (fun p => truthy (test_outcome p)) (mark_tests T pairs))
  = length (List.filter (fun p => bool_decide (index p ∈ T)) pairs).
Proof.
  unfold mark_tests. induction pairs as [|p ps IH]; [reflexivity|].
  cbn [map List.filter]. unfold set_test_outcome at 1. cbn [test_outcome truthy].
  destruct (bool_decide (index p ∈ T)); cbn [length]; now rewrite IH.
Qed.

(** X17.  In every report [main] returns, the number of compared pairs
    is the smaller of the requested test size [max(int(num_bits / 4), 1)]
    and the number of basis-matched pairs. *)
Theorem compared_count_is_min
    (bit_flips basis_flips : list Z) (rs : list nat) (num_bits key_length : Z)
    (sock sock' : Socket) (rep : Report) :
  main bit_flips basis_flips rs num_bits key_length sock = (Ok rep, sock') ->
  outcome_comparison_count rep
  = Z.min (num_test_bits_of num_bits) (same_basis_count rep)
  /\ 1 <= num_test_bits_of num_bits.
Proof.
  intros Hrun.
  assert (Hk : 1 <= num_test_bits_of num_bits) by (unfold num_test_bits_of; lia).
  split; [|exact Hk].
  destruct (main_inv _ _ _ _ _ _ _ _ Hrun)
    as (pairs0 & rest & pairs1 & sock1 & pairs2 & rate & H0 & _ & H1 & H2 & H3).
  destruct (filter_bases_inv _ _ _ _ H1) as (hdr & remote & rest1 & _ & Hfb & _).
  assert (Hidx : indexed pairs1).
  { eapply indexed_same_index; [eapply filter_bases_loop_index; exact Hfb|].
    eapply make_pairs_indexed; exact H0. }
  destruct (estimate_error_rate_inv _ _ _ _ _ _ _ H2)
    as (tos & hdr2 & target & rest2 & ne & _ & _ & Hloop & _).
  destruct (compare_loop_core _ _ _ _ _ Hloop) as (Hcore & _ & _).
  set (T := test_indices_of rs pairs1 (num_test_bits_of num_bits)) in *.
  pose proof (tested_are_matched _ _ _ _ Hidx Hcore) as Htm.
  destruct (report_of_inv _ _ _ _ H3) as (Hsbc & Hocc & _).
  unfold count_compared in Hocc. unfold count_same_basis in Hsbc.
  apply sum_flags_inv in Hocc, Hsbc.
  rewrite count_true_test_outcome, (filter_tested_matched _ Htm),
    <- count_true_test_outcome in Hocc.
  pose proof (f_equal (map (fun c : Z * Z * Z * option bool * option bool => snd c))
                Hcore) as Hto.
  rewrite !map_map in Hto.
  change (map test_outcome pairs2 = map test_outcome (mark_tests T pairs1)) in Hto.
  pose proof (f_equal (map (fun c : Z * Z * Z * option bool * option bool =>
                              snd (fst c))) Hcore) as Hsb.
  unfold mark_tests in Hsb. rewrite !map_map in Hsb.
  change (map same_basis pairs2 = map same_basis pairs1) in Hsb.
  rewrite Hto, count_true_test_outcome in Hocc.
  rewrite Hsb, count_true_same_basis in Hsbc.
  rewrite filter_marked, count_marked in Hocc.
  - rewrite Hocc, Hsbc. unfold T. rewrite length_test_indices by lia.
    unfold same_basis_indices. now rewrite length_map.
  - now apply indexed_NoDup.
  - apply sample_draw_NoDup. unfold same_basis_indices.
    apply NoDup_map_filter, indexed_NoDup, Hidx.
  - intros i Hi. apply matched_is_index. eapply test_indices_matched. exact Hi.
Qed.

Lemma compared_count_is_min_witness :
  exists rep sock',
    main demo_outcomes demo_basis [2%nat; 0%nat] 8 16 demo_socket = (Ok rep, sock')
    /\ outcome_comparison_count rep = Z.min (num_test_bits_of 8) (same_basis_count rep).
Proof.
  eexists. eexists. split; [lazy; reflexivity|].
  refine (proj1 (compared_count_is_min demo_outcomes demo_basis [2%nat; 0%nat] 8 16
                   demo_socket _ _ eq_refl)).
Defined.

(** ** [main]: the counts and the table of the report *)

(** The list a returned report was computed from. *)
Lemma main_final_pairs bit_flips basis_flips rs num_bits key_length sock rep sock' :
  main bit_flips basis_flips rs num_bits key_length sock = (Ok rep, sock') ->
  exists pairs1 pairs2,
    indexed pairs1
    /\ length pairs1 = Z.to_nat num_bits
    /\ map core pairs2
       = map core (mark_tests (test_indices_of rs pairs1 (num_test_bits_of num_bits))
                              pairs1)
    /\ report_of pairs2 num_bits key_length = Ok rep.
Proof.
  intros Hrun.
  destruct (main_inv _ _ _ _ _ _ _ _ Hrun)
    as (pairs0 & rest & pairs1 & sock1 & pairs2 & rate & H0 & _ & H1 & H2 & H3).
  destruct (filter_bases_inv _ _ _ _ H1) as (hdr & remote & rest1 & _ & Hfb & _).
  pose proof (filter_bases_loop_index _ _ _ Hfb) as Hindex.
  destruct (estimate_error_rate_inv _ _ _ _ _ _ _ H2)
    as (tos & hdr2 & target & rest2 & ne & _ & _ & Hloop & _).
  destruct (compare_loop_core _ _ _ _ _ Hloop) as (Hcore & _ & _).
  exists pairs1, pairs2. split; [|split; [|split]]; try assumption.
  - eapply indexed_same_index; [exact Hindex|]. eapply make_pairs_indexed; exact H0.
  - rewrite <- (length_map index pairs1), Hindex, length_map.
    eapply make_pairs_length; exact H0.
Qed.

Lemma sum_flags_all_set l z : sum_flags l = Ok z -> Forall is_Some l.
Proof.
  revert z. induction l as [|[b|] l IH]; intros z; cbn [sum_flags].
  - constructor.
  - destruct (sum_flags l) as [s| |]; cbn [obind]; try discriminate.
    intros _. constructor; [now eexists | now apply (IH s)].
  - discriminate.
Qed.

Lemma report_of_table pairs num_bits L rep :
  report_of pairs num_bits L = Ok rep ->
  table rep = table_of pairs
  /\ x_basis_count rep = sum_ints (map basis pairs)
  /\ z_basis_count rep = num_bits - x_basis_count rep.
Proof.
  unfold report_of.
  destruct (count_same_basis pairs) as [sbc| |]; cbn [obind]; try discriminate.
  destruct (count_compared pairs) as [occ| |]; cbn [obind]; try discriminate.
  destruct (count_same_outcome pairs) as [same| |]; cbn [obind]; try discriminate.
  destruct (qber_of (occ - same) occ) as [q| |]; cbn [obind]; try discriminate.
  intros [= <-]. cbn. repeat split.
Qed.

(** X18.  The counts of every report [main] returns fit together: the
    basis-matched pairs are the compared ones plus the raw-key ones, and
    [0 <= diff_outcome_count <= outcome_comparison_count <=
    same_basis_count <= max(num_bits, 0)]. *)
Theorem report_counts_consistent
    (bit_flips basis_flips : list Z) (rs : list nat) (num_bits key_length : Z)
    (sock sock' : Socket) (rep : Report) :
  main bit_flips basis_flips rs num_bits key_length sock = (Ok rep, sock') ->
  same_basis_count rep
  = outcome_comparison_count rep + Z.of_nat (length (raw_key rep))
  /\ 0 <= diff_outcome_count rep <= outcome_comparison_count rep
  /\ outcome_comparison_count rep <= same_basis_count rep
  /\ same_basis_count rep <= Z.max num_bits 0.
Proof.
  intros Hrun.
  destruct (main_final_pairs _ _ _ _ _ _ _ _ Hrun)
    as (pairs1 & pairs2 & Hidx & Hlen1 & Hcore & H3).
  pose proof (tested_are_matched _ _ _ _ Hidx Hcore) as Htm.
  assert (Hlen2 : length pairs2 = Z.to_nat num_bits).
  { rewrite <- (length_map core pairs2), Hcore, length_map, length_mark_tests.
    exact Hlen1. }
  destruct (report_of_inv _ _ _ _ H3)
    as (Hsbc & Hocc & (same & Hsame & Hdiff) & _ & _ & Hraw & _).
  unfold count_same_basis in Hsbc. unfold count_compared in Hocc.
  unfold count_same_outcome in Hsame.
  apply sum_flags_inv in Hsbc, Hocc, Hsame.
  pose proof (matched_split pairs2) as Hsplit.
  pose proof (List.filter_length_le (fun p => truthy (same_basis p)) pairs2) as Hb1.
  pose proof (count_true_bounds
                (map same_outcome
                   (List.filter (fun p => truthy (test_outcome p)) pairs2))) as Hb2.
  pose proof (count_true_bounds
                (map test_outcome
                   (List.filter (fun p => truthy (same_basis p)) pairs2))) as Hb3.
  rewrite length_map in Hb2.
  rewrite count_true_same_basis in Hsbc.
  assert (Hocc' : outcome_comparison_count rep
                  = Z.of_nat (length (List.filter (fun p => truthy (test_outcome p))
                                        pairs2))).
  { now rewrite Hocc, count_true_test_outcome, (filter_tested_matched _ Htm). }
  rewrite Hraw. rewrite <- Hocc in Hsplit. lia.
Qed.

Lemma report_counts_consistent_witness :
  exists rep sock',
    main demo_outcomes demo_basis [2%nat; 0%nat] 8 16 demo_socket = (Ok rep, sock')
    /\ same_basis_count rep
       = outcome_comparison_count rep + Z.of_nat (length (raw_key rep)).
Proof.
  eexists. eexists. split; [lazy; reflexivity|].
  refine (proj1 (report_counts_consistent demo_outcomes demo_basis [2%nat; 0%nat] 8 16
                   demo_socket _ _ eq_refl)).
Defined.

(** X19.  The table of every report [main] returns has one row per
    generated pair, in index order; each row carries a definite same-basis
    flag, basis label "X" or "Z", and in the last column either "-" (pair
    not compared) or a definite verdict: no [None] reaches the table. *)
Theorem report_table_is_complete
    (bit_flips basis_flips : list Z) (rs : list nat) (num_bits key_length : Z)
    (sock sock' : Socket) (rep : Report) :
  main bit_flips basis_flips rs num_bits key_length sock = (Ok rep, sock') ->
  length (table rep) = Z.to_nat num_bits
  /\ (forall i row, table rep !! i = Some row ->
        row_index row = Z.of_nat i
        /\ (row_basis row = "X"%string \/ row_basis row = "Z"%string)
        /\ is_Some (row_same_basis row)
        /\ (row_check row = Dash \/ exists b, row_check row = Checked (Some b))).
Proof.
  intros Hrun.
  destruct (main_final_pairs _ _ _ _ _ _ _ _ Hrun)
    as (pairs1 & pairs2 & Hidx & Hlen1 & Hcore & H3).
  assert (Hlen2 : length pairs2 = Z.to_nat num_bits).
  { rewrite <- (length_map core pairs2), Hcore, length_map, length_mark_tests.
    exact Hlen1. }
  destruct (report_of_table _ _ _ _ H3) as (Htab & _).
  destruct (report_of_inv _ _ _ _ H3) as (Hsbc & _ & (same & Hsame & _) & _).
  unfold count_same_basis in Hsbc. unfold count_same_outcome in Hsame.
  apply sum_flags_all_set in Hsbc, Hsame.
  rewrite Htab. unfold table_of. split; [now rewrite length_map|].
  intros i row Hrow. rewrite lookup_map in Hrow.
  destruct (pairs2 !! i) as [p2|] eqn:Hp2; [|discriminate].
  cbn in Hrow. injection Hrow as <-.
  cbn [row_index row_basis row_same_basis row_check].
  assert (Hin : In p2 pairs2)
    by (apply list_elem_of_In; eapply list_elem_of_lookup_2; exact Hp2).
  split; [|split; [|split]].
  - assert (Hj : map core pairs2 !! i = Some (core p2)) by now rewrite lookup_map, Hp2.
    rewrite Hcore, lookup_map, lookup_mark_tests in Hj.
    destruct (pairs1 !! i) as [p1|] eqn:Hp1; [|discriminate]. cbn in Hj.
    injection Hj as Hi _ _ _ _. rewrite <- Hi. now apply Hidx.
  - destruct (basis p2 =? 1); [now left | now right].
  - rewrite List.Forall_forall in Hsbc. apply Hsbc. now apply in_map.
  - destruct (truthy (test_outcome p2)) eqn:Ht; [right | now left].
    rewrite List.Forall_forall in Hsame.
    destruct (Hsame (same_outcome p2)) as [b Hb].
    + apply in_map. apply List.filter_In. now split.
    + exists b. now rewrite Hb.
Qed.

Lemma report_table_is_complete_witness :
  exists rep sock',
    main demo_outcomes demo_basis [2%nat; 0%nat] 8 16 demo_socket = (Ok rep, sock')
    /\ length (table rep) = 8%nat.
Proof.
  eexists. eexists. split; [lazy; reflexivity|].
  refine (proj1 (report_table_is_complete demo_outcomes demo_basis [2%nat; 0%nat] 8 16
                   demo_socket _ _ eq_refl)).
Defined.

(** ** [main]: range of the key-rate potential, exceptions, key length *)

Section EntropyRange.
Local Open Scope R_scope.





End EntropyRange.















(** X22.  A negative [key_length] is not rejected: the secret key of the
    report is then the raw key without its last [-key_length] bits, the
    way a Python slice counts a negative stop from the end. *)
Theorem negative_key_length_trims_the_end
    (bit_flips basis_flips : list Z) (rs : list nat) (num_bits key_length : Z)
    (sock sock' : Socket) (rep : Report) :
  main bit_flips basis_flips rs num_bits key_length sock = (Ok rep, sock') ->
  key_length < 0 ->
  secret_key rep
  = take (length (raw_key rep) - Z.to_nat (- key_length)) (raw_key rep).
Proof.
  intros Hrun HL.
  destruct (main_report _ _ _ _ _ _ _ _ Hrun) as [pairs Hrep].
  destruct (report_of_inv _ _ _ _ Hrep) as (_ & _ & _ & _ & _ & -> & ->).
  unfold py_slice_to. destruct (Z.leb_spec 0 key_length); [lia|].
  f_equal. lia.
Qed.

Lemma negative_key_length_trims_the_end_witness :
  exists rep sock',
    main demo_outcomes demo_basis [2%nat; 0%nat] 8 (-1) demo_socket = (Ok rep, sock')
    /\ raw_key rep = [1; 0; 1; 1]
    /\ secret_key rep = [1; 0; 1].
Proof.
  eexists. eexists. split; [lazy; reflexivity|]. split; [reflexivity|].
  etransitivity.
  - apply (negative_key_length_trims_the_end demo_outcomes demo_basis [2%nat; 0%nat]
             8 (-1) demo_socket _ _ eq_refl).
    lia.
  - reflexivity.
Defined.
